(** * NekkoSub: ASS subtitle dialogue extraction ([ass_to_json.py])

    A shallow embedding of [parse_ass_file], [write_json] and [main], and
    the properties of the dialogue extractor proved over it.

    Python [str] values are sequences of Unicode code points; they are
    modelled as lists of code points ([N]).  The regular expression of
    [parse_ass_file] is kept as a regular expression and run by a small
    backtracking matcher with the semantics of Python's [re.match]. *)

From Stdlib Require Import NArith Ascii String.
From stdpp Require Import base option list gmap pretty.

Local Open Scope N_scope.

(** ** Strings *)

Definition char := N.
Abbreviation str := (list char).

Definition ord (a : ascii) : char := N_of_ascii a.

(** An ASCII literal of the source as a list of code points. *)
Definition lit (x : string) : str := map ord (list_ascii_of_string x).

Definition NL : char := 10.
Definition CR : char := 13.
Definition COMMA : char := 44.

Fixpoint take_while (p : char -> bool) (s : str) : str :=
  match s with
  | c :: s' => if p c then c :: take_while p s' else []
  | [] => []
  end.

Fixpoint drop_while (p : char -> bool) (s : str) : str :=
  match s with
  | c :: s' => if p c then drop_while p s' else s
  | [] => []
  end.

(** [s.startswith(p)] *)
Fixpoint startswith (s p : str) {struct p} : bool :=
  match p with
  | [] => true
  | x :: p' =>
      match s with
      | c :: s' => (c =? x) && startswith s' p'
      | [] => false
      end
  end.

(** [s.split(sep)] for a one-character separator. *)
Fixpoint split_on (sep : char) (s : str) : list str :=
  match s with
  | [] => [[]]
  | c :: s' =>
      if c =? sep then [] :: split_on sep s'
      else match split_on sep s' with
           | f :: fs => (c :: f) :: fs
           | [] => [[c]]
           end
  end.

(** [sep.join(xs)] *)
Definition join (sep : str) (xs : list str) : str :=
  match xs with
  | [] => []
  | x :: xs' => x ++ concat (map (fun y => sep ++ y) xs')
  end.

(** [str.isspace] on one code point (CPython's [_PyUnicode_IsWhitespace]). *)
Definition isspace (c : char) : bool :=
  ((9 <=? c) && (c <=? 13)) || ((28 <=? c) && (c <=? 32))
  || (c =? 133) || (c =? 160) || (c =? 5760)
  || ((8192 <=? c) && (c <=? 8202))
  || (c =? 8232) || (c =? 8233) || (c =? 8239) || (c =? 8287) || (c =? 12288).

Definition lstrip (s : str) : str := drop_while isspace s.
Definition rstrip (s : str) : str := reverse (drop_while isspace (reverse s)).

(** [s.strip()] with no argument. *)
Definition strip (s : str) : str := rstrip (lstrip s).

(** ** Regular expressions

    The fragment of Python's [re] syntax that [dialogue_pattern] uses:
    literal characters, the negated class, the dot, greedy [*] on a
    one-character item, concatenation and numbered capturing groups. *)

Inductive cset :=
  | Lit (c : char)          (* a literal character *)
  | NotIn (cs : list char)  (* [^...] *)
  | Dot.                    (* .  (no DOTALL: anything but a newline) *)

Inductive regex :=
  | Eps
  | Chr (a : cset)
  | Star (a : cset)         (* a*  (greedy) *)
  | Seq (r1 r2 : regex)
  | Group (n : nat) (r : regex).

Definition cset_mem (a : cset) (c : char) : bool :=
  match a with
  | Lit x => c =? x
  | NotIn cs => negb (existsb (N.eqb c) cs)
  | Dot => negb (c =? NL)
  end.

(** Greedy star with backtracking: take one more character first, fall
    back to the continuation at the current position if that fails. *)
Fixpoint star {R} (a : cset) (s : str) (k : str -> option R) : option R :=
  match s with
  | c :: s' =>
      if cset_mem a c
      then match star a s' k with
           | Some r => Some r
           | None => k s
           end
      else k s
  | [] => k s
  end.

(** The matcher, in continuation-passing style: [k] is what remains to be
    matched after [r]; the captures map a group number to its substring. *)
Fixpoint exec {R} (r : regex) (s : str) (g : gmap nat str)
    (k : str -> gmap nat str -> option R) : option R :=
  match r with
  | Eps => k s g
  | Chr a =>
      match s with
      | c :: s' => if cset_mem a c then k s' g else None
      | [] => None
      end
  | Star a => star a s (fun s' => k s' g)
  | Seq r1 r2 => exec r1 s g (fun s' g' => exec r2 s' g' k)
  | Group n r =>
      exec r s g (fun s' g' =>
        k s' (<[n := take (length s - length s') s]> g'))
  end.

(** [pattern.match(s)]: anchored at the start, not at the end. *)
Definition re_match (r : regex) (s : str) : option (gmap nat str) :=
  exec r s ∅ (fun _ g => Some g).

Definition seq_of (rs : list regex) : regex := foldr Seq Eps rs.
Definition literal (x : str) : regex := seq_of (map (fun c => Chr (Lit c)) x).

Definition field : regex := Star (NotIn [COMMA]).
Definition comma : regex := Chr (Lit COMMA).

(** The pattern compiled in [parse_ass_file].  Writing F for the item
    [^,] under a star and T for the dot under a star, the source pattern
    reads  Dialogue: F,(F),(F),(F,F,F,F,F,F,)(T)  with one space after the
    colon; the four parenthesised parts are the groups 1 to 4. *)
Definition dialogue_pattern : regex :=
  seq_of
    [ literal (lit "Dialogue: "); field; comma;
      Group 1 field; comma;
      Group 2 field; comma;
      Group 3 (seq_of [field; comma; field; comma; field; comma;
                       field; comma; field; comma; field; comma]);
      Group 4 (Star Dot) ].

(** ** The extractor *)

(** The dictionary built for one dialogue line; its keys are fixed. *)
Record dialogue := Dialogue {
  start_time : str;
  end_time : str;
  dialog : str
}.

Definition parse_time (time_str : str) : str := time_str.

(** The body of the loop of [parse_ass_file] for one [line]: the record to
    append, if any.  [match.groups()] is read off the captures; the four
    groups take part in every match of the pattern ([parse_line_split]
    below), so the last branch of the inner [match] is never taken. *)
Definition parse_line (line : str) : option dialogue :=
  if startswith line (lit "Dialogue:") then
    match re_match dialogue_pattern line with
    | Some m =>
        match m !! 1%nat, m !! 2%nat, m !! 3%nat, m !! 4%nat with
        | Some start_time, Some end_time, Some _, Some text =>
            Some {| start_time := start_time;
                    end_time := end_time;
                    dialog := strip text |}
        | _, _, _, _ => None
        end
    | None => None
    end
  else None.

(** The loop of [parse_ass_file] over the lines of the file, with the
    list [dialogues] as the state. *)
Definition parse_lines_from (dialogues : list dialogue) (lines : list str)
    : list dialogue :=
  fold_left (fun dialogues line =>
               match parse_line line with
               | Some d => dialogues ++ [d]
               | None => dialogues
               end) lines dialogues.

Definition parse_lines (lines : list str) : list dialogue :=
  parse_lines_from [] lines.

(** ** Reading the file

    [open(file_path, 'r', encoding='utf-8')] reads text with universal
    newlines: "\r\n" and a lone "\r" arrive as "\n".  Iterating over the
    file yields its lines, each with its terminating "\n" except possibly
    the last. *)

Fixpoint universal_newlines (s : str) : str :=
  match s with
  | [] => []
  | c :: s' =>
      if c =? CR then
        NL :: match s' with
              | c' :: s'' =>
                  if c' =? NL then universal_newlines s''
                  else universal_newlines s'
              | [] => []
              end
      else c :: universal_newlines s'
  end.

Fixpoint file_lines (s : str) : list str :=
  match s with
  | [] => []
  | c :: s' =>
      if c =? NL then [c] :: file_lines s'
      else match file_lines s' with
           | l :: ls => (c :: l) :: ls
           | [] => [[c]]
           end
  end.

(** The extraction on the decoded text of a file. *)
Definition parse_ass_text (content : str) : list dialogue :=
  parse_lines (file_lines (universal_newlines content)).

(** ** Serialisation

    [json.dump(dialogues, file, ensure_ascii=False, indent=2)].  The
    encoder is the one of Python's [json] module ([_make_iterencode] and
    [py_encode_basestring]), on the values that occur here: strings,
    lists, and dictionaries with string keys, kept in insertion order. *)

#[local] Unset Elimination Schemes.
Inductive json :=
  | JStr (s : str)
  | JList (vs : list json)
  | JDict (items : list (str * json)).
#[local] Set Elimination Schemes.

Definition QUOTE : char := 34.
Definition BACKSLASH : char := 92.

Definition hex_digit (n : N) : char := if n <? 10 then 48 + n else 87 + n.

(** The replacement of one character in a string: the two characters
    that have to be escaped, the control characters, and everything else
    as it is ([ensure_ascii=False]). *)
Definition escape_char (c : char) : str :=
  if c =? QUOTE then [BACKSLASH; QUOTE]
  else if c =? BACKSLASH then [BACKSLASH; BACKSLASH]
  else if c =? 8 then lit "\b"
  else if c =? 12 then lit "\f"
  else if c =? 10 then lit "\n"
  else if c =? 13 then lit "\r"
  else if c =? 9 then lit "\t"
  else if c <? 32 then lit "\u00" ++ [hex_digit (c / 16); hex_digit (c mod 16)]
  else [c].

Definition encode_basestring (s : str) : str :=
  [QUOTE] ++ concat (map escape_char s) ++ [QUOTE].

Definition newline_indent (indent level : nat) : str :=
  NL :: replicate (indent * level) 32.

Fixpoint iterencode (indent : nat) (v : json) (level : nat) : str :=
  match v with
  | JStr s => encode_basestring s
  | JList [] => lit "[]"
  | JList vs =>
      lit "[" ++ newline_indent indent (S level)
      ++ join (lit "," ++ newline_indent indent (S level))
              (map (fun v' => iterencode indent v' (S level)) vs)
      ++ newline_indent indent level ++ lit "]"
  | JDict [] => lit "{}"
  | JDict items =>
      lit "{" ++ newline_indent indent (S level)
      ++ join (lit "," ++ newline_indent indent (S level))
              (map (fun kv => let '(k, v') := kv in
                      encode_basestring k ++ lit ": "
                      ++ iterencode indent v' (S level)) items)
      ++ newline_indent indent level ++ lit "}"
  end.

(** The dictionary of a record, keys in the order of the dictionary
    display in [parse_ass_file]. *)
Definition dict_of (d : dialogue) : json :=
  JDict [ (lit "start_time", JStr (start_time d));
          (lit "end_time", JStr (end_time d));
          (lit "dialog", JStr (dialog d)) ].

(** The text that [write_json] writes. *)
Definition json_text (dialogues : list dialogue) : str :=
  iterencode 2 (JList (map dict_of dialogues)) 0.

(** ** The command line

    The program runs against a file system and prints lines.  The file
    system is a parameter: a state [fs] with the three operations the
    program uses: [stat], on which [exists()] is built, the read and the
    write; each either succeeds or fails.  An exception is a class and
    the text [str(e)]. *)

Inductive exn_class :=
  | FileNotFoundError
  | PermissionError
  | IsADirectoryError
  | OSError
  | UnicodeDecodeError
  | UnicodeEncodeError
  | MemoryError
  | KeyboardInterrupt
  | SystemExit.

Record exn := Exn { exn_cls : exn_class; exn_str : str }.

(** [isinstance(e, Exception)]: the two last classes derive from
    [BaseException] only. *)
Definition is_Exception (e : exn) : bool :=
  match exn_cls e with
  | KeyboardInterrupt | SystemExit => false
  | _ => true
  end.

(** How [os.stat] fails: with an [OSError] that has an [errno] and a
    text, or, on a path that cannot be encoded, with a [ValueError]. *)
Inductive stat_failure :=
  | StatOSError (errno : N) (text : str)
  | StatValueError (text : str).

Record file_system (fs : Type) := FileSystem {
  (* os.stat(p): None when it succeeds *)
  path_stat : fs -> str -> option stat_failure;
  (* open(p, 'r', encoding='utf-8') and reading it to the end: the decoded
     text, before the translation of newlines *)
  read_text : fs -> str -> exn + str;
  (* open(p, 'w', encoding='utf-8') and writing the text: the exception if
     any, and the file system afterwards *)
  write_text : fs -> str -> str -> option exn * fs
}.
Arguments path_stat {fs}.
Arguments read_text {fs}.
Arguments write_text {fs}.

(** [stat] succeeds on the path: [exists()] answers [True]. *)
Definition path_exists {fs} (os : file_system fs) (m : fs) (p : str) : bool :=
  match path_stat os m p with
  | None => true
  | Some _ => false
  end.

(** [pathlib._IGNORED_ERRNOS]: ENOENT, ENOTDIR, EBADF, ELOOP. *)
Definition IGNORED_ERRNOS : list N := [2; 20; 9; 40].

(** [pathlib._ignore_error], on the [errno] of the exception. *)
Definition ignore_error (errno : N) : bool := existsb (N.eqb errno) IGNORED_ERRNOS.

(** The class of the [OSError] raised for an [errno]; the subclasses
    that are not listed are not told apart from [OSError]. *)
Definition os_error_class (errno : N) : exn_class :=
  if (errno =? 1) || (errno =? 13) then PermissionError
  else if errno =? 2 then FileNotFoundError
  else if errno =? 21 then IsADirectoryError
  else OSError.

(** Paths are POSIX paths, kept as the string [str(path)].

    [Path(s)] puts the string in normal form: one leading slash (two when
    there are exactly two), the components that are neither empty nor "."
    joined by "/", and "." when nothing is left. *)
Definition SLASH : char := 47.
Definition DOT : char := 46.
Definition is_slash (c : char) : bool := c =? SLASH.
Definition is_dot (c : char) : bool := c =? DOT.

Definition Path (s : str) : str :=
  let rel := drop_while is_slash s in
  let root :=
    match (length s - length rel)%nat with
    | O => []
    | 2%nat => [SLASH; SLASH]
    | _ => [SLASH]
    end in
  let parts :=
    filter (fun x => x <> [] /\ x <> [DOT]) (split_on SLASH rel) in
  match root ++ join [SLASH] parts with
  | [] => [DOT]
  | p => p
  end.

(** [PurePath.name], [PurePath.suffix] and [with_suffix] on a path in
    normal form.  ([with_suffix] raises on a path with an empty name; it
    is called below on a path whose suffix is not empty.) *)

Definition path_name (p : str) : str :=
  reverse (take_while (fun c => negb (is_slash c)) (reverse p)).

Definition path_suffix (p : str) : str :=
  let name := path_name p in
  let ext := reverse (take_while (fun c => negb (is_dot c)) (reverse name)) in
  (* i = name.rfind('.'); 0 < i < len(name) - 1 *)
  if (0 <? length ext)%nat && (S (length ext) <? length name)%nat
  then DOT :: ext else [].

Definition with_suffix (p suffix : str) : str :=
  take (length p - length (path_suffix p)) p ++ suffix.

(** [str.lower] on the code points A to Z; the others are left as they
    are (none of them lowers to ".", "a" or "s", which is all the
    comparison below depends on). *)
Definition lower (s : str) : str :=
  map (fun c => if (65 <=? c) && (c <=? 90) then c + 32 else c) s.

Definition str_eqb (s t : str) : bool := bool_decide (s = t).

(** [str(n)] for a length. *)
Definition str_of_nat (n : nat) : str := lit (pretty (N.of_nat n)).

(** The three error messages of [main]. *)
Definition not_found_message (input_path : str) : str :=
  lit "Error: Input file '" ++ input_path ++ lit "' not found.".
Definition not_ass_message : str := lit "Error: Input file must be an ASS file".
Definition error_message (e : exn) : str := lit "An error occurred: " ++ exn_str e.

Section CommandLine.
Context {fs : Type} (os : file_system fs).

(** The state: the file system and the lines printed so far.  A
    computation ends with a value or with a raised exception. *)
Definition state : Type := fs * list str.
Definition M (A : Type) : Type := state -> (exn + A) * state.

Definition ret {A} (x : A) : M A := fun st => (inr x, st).
Definition bind {A B} (m : M A) (f : A -> M B) : M B :=
  fun st => match m st with
            | (inr x, st') => f x st'
            | (inl e, st') => (inl e, st')
            end.

Notation "x <-- m ;; k" := (bind m (fun x => k))
  (at level 100, m at next level, right associativity).
Notation "m ;;; k" := (bind m (fun _ => k))
  (at level 100, right associativity).

(** [try: body  except Exception as e: handler e] *)
Definition try_except_Exception {A} (body : M A) (handler : exn -> M A) : M A :=
  fun st => match body st with
            | (inl e, st') =>
                if is_Exception e then handler e st' else (inl e, st')
            | r => r
            end.

Definition print (line : str) : M unit :=
  fun st => (inr tt, (st.1, st.2 ++ [line])).

(** [path.exists()] of pathlib: [stat] the path; an [OSError] with an
    ignored [errno] and a [ValueError] give [False], any other [OSError]
    is raised again. *)
Definition exists_ (path : str) : M bool :=
  fun st => match path_stat os st.1 path with
            | None => (inr true, st)
            | Some (StatOSError errno text) =>
                if ignore_error errno then (inr false, st)
                else (inl (Exn (os_error_class errno) text), st)
            | Some (StatValueError _) => (inr false, st)
            end.

Definition parse_ass_file (file_path : str) : M (list dialogue) :=
  fun st => match read_text os st.1 file_path with
            | inl e => (inl e, st)
            | inr content => (inr (parse_ass_text content), st)
            end.

Definition write_json (dialogues : list dialogue) (output_path : str) : M unit :=
  fun st => match write_text os st.1 output_path (json_text dialogues) with
            | (Some e, fs') => (inl e, (fs', st.2))
            | (None, fs') => (inr tt, (fs', st.2))
            end.

(** [Path(args.output) if args.output else input_path.with_suffix('.json')]:
    an empty [args.output] counts as absent. *)
Definition output_path (input_path : str) (output : option str) : str :=
  match output with
  | Some (c :: o) => Path (c :: o)
  | _ => with_suffix input_path (lit ".json")
  end.

(** [main], after [parser.parse_args()]: [input] is [args.input] and
    [output] is [args.output], [None] when the option is absent. *)
Definition main (input : str) (output : option str) : M unit :=
  let input_path := Path input in
  found <-- exists_ input_path ;;
  if negb found then
    print (not_found_message input_path)
  else if negb (str_eqb (lower (path_suffix input_path)) (lit ".ass")) then
    print not_ass_message
  else
    let output_path := output_path input_path output in
    try_except_Exception
      (dialogues <-- parse_ass_file (input_path) ;;
       write_json dialogues output_path ;;;
       print (lit "Successfully converted '" ++ input_path
              ++ lit "' to '" ++ output_path ++ lit "'") ;;;
       print (lit "Extracted " ++ str_of_nat (length dialogues)
              ++ lit " dialogue lines"))
      (fun e => print (error_message e)).
End CommandLine.

(** A file system to run the program on: a finite map from paths to
    what is there, with the limit of 255 bytes on a file name. *)
Inductive node :=
  | Text (content : str)   (* a text file, with its decoded content *)
  | Garbled (error : str)  (* a file that is not UTF-8, with the text of the
                              [UnicodeDecodeError] that reading it raises *)
  | Locked                 (* a file that may not be opened *)
  | Dir.

(** Number of bytes of a code point in UTF-8. *)
Definition utf8_length (c : char) : nat :=
  if c <? 128 then 1 else if c <? 2048 then 2 else if c <? 65536 then 3 else 4.

Definition name_too_long (p : str) : bool :=
  existsb (fun name => (255 <? sum_list (map utf8_length name))%nat)
          (split_on SLASH p).

(** [str(e)] for an [OSError] on a file: "[Errno n] text: 'path'".  The
    path is written between single quotes as [repr] writes a string that
    has no quote, no backslash and only printable characters. *)
Definition os_error_text (errno : nat) (strerror : string) (p : str) : str :=
  lit "[Errno " ++ str_of_nat errno ++ lit "] " ++ lit strerror
  ++ lit ": '" ++ p ++ lit "'".

Definition simple_fs : file_system (gmap str node) := {|
  path_stat := fun m p =>
    if name_too_long p
    then Some (StatOSError 36 (os_error_text 36 "File name too long" p))
    else match m !! p with
         | Some _ => None
         | None =>
             Some (StatOSError 2 (os_error_text 2 "No such file or directory" p))
         end;
  read_text := fun m p =>
    if name_too_long p
    then inl (Exn OSError (os_error_text 36 "File name too long" p))
    else match m !! p with
         | Some (Text content) => inr content
         | Some (Garbled error) => inl (Exn UnicodeDecodeError error)
         | Some Locked =>
             inl (Exn PermissionError (os_error_text 13 "Permission denied" p))
         | Some Dir =>
             inl (Exn IsADirectoryError (os_error_text 21 "Is a directory" p))
         | None =>
             inl (Exn FileNotFoundError
                    (os_error_text 2 "No such file or directory" p))
         end;
  write_text := fun m p text =>
    if name_too_long p
    then (Some (Exn OSError (os_error_text 36 "File name too long" p)), m)
    else match m !! p with
         | Some Locked =>
             (Some (Exn PermissionError (os_error_text 13 "Permission denied" p)), m)
         | Some Dir =>
             (Some (Exn IsADirectoryError (os_error_text 21 "Is a directory" p)), m)
         | _ => (None, <[p := Text text]> m)
         end
|}.

(** Three entries to run the program on. *)
Definition sample_files : gmap (list char) node :=
  <[lit "subs.ass" :=
      Text (lit "; a comment" ++ [CR; NL]
            ++ lit "Dialogue: 0,0:00:01.00,0:00:02.00,Default,,0,0,0,,Hi there" ++ [CR; NL]
            ++ lit "Dialogue: 0,0:00:03.00" ++ [CR; NL])]>
  (<[lit "folder.ASS" := Dir]>
  (<[lit "notes.txt" := Text (lit "Dialogue: 0,1,2,3,4,5,6,7,8,x")]> ∅)).

(** ** The field split of the specification

    The split by commas that the specification describes, written
    directly on the string; the theorems below compare it with what the
    pattern does. *)

Definition notcomma (c : char) : bool := negb (c =? COMMA).
Definition notnl (c : char) : bool := negb (c =? NL).

(** Number of occurrences of [x] in [s]. *)
Fixpoint count_char (x : char) (s : str) : nat :=
  match s with
  | c :: s' => if c =? x then S (count_char x s') else count_char x s'
  | [] => O
  end.

(** [cut s]: the field before the first comma of [s] and what follows
    that comma; [None] when [s] has no comma. *)
Definition cut (s : str) : option (str * str) :=
  match drop_while notcomma s with
  | _ :: rest => Some (take_while notcomma s, rest)
  | [] => None
  end.

(** What follows the [n]-th comma of [s]. *)
Fixpoint after_commas (n : nat) (s : str) : option str :=
  match n with
  | O => Some s
  | S n' => '(_, rest) ← cut s; after_commas n' rest
  end.

(** [s.split(',')] *)
Definition split_comma (s : str) : list str := split_on COMMA s.

(** The four groups of a dialogue line, by cutting at its first nine
    commas. *)
Definition split_dialogue (line : str) : option (str * str * str * str) :=
  if startswith line (lit "Dialogue: ") then
    '(_, r1) ← cut (drop 10 line);
    '(f1, r2) ← cut r1;
    '(f2, r3) ← cut r2;
    '(_, r4) ← cut r3;
    '(_, r5) ← cut r4;
    '(_, r6) ← cut r5;
    '(_, r7) ← cut r6;
    '(_, r8) ← cut r7;
    '(_, r9) ← cut r8;
    Some (f1, f2, take (length r3 - length r9) r3, take_while notnl r9)
  else None.

(** The shape of a line of the file: not empty, and no newline before
    its last character. *)
Definition is_line (l : str) : bool :=
  match l with
  | [] => false
  | _ :: _ => forallb notnl (removelast l)
  end.

(** Each field followed by its comma. *)
Definition with_commas (fs : list str) : str :=
  concat (map (fun f => f ++ [COMMA]) fs).

(** A line made of the marker, one space, the given fields each closed by
    a comma, and [text]. *)
Definition dialogue_line (fs : list str) (text : str) : str :=
  lit "Dialogue: " ++ with_commas fs ++ text.

Definition comma_free (f : str) : Prop := count_char COMMA f = O.

(** A dialogue event as the input format writes it,
    "Dialogue: layer,start,end,style,name,marginL,marginR,marginV,effect,text":
    nine fields and the text. *)
Record event := Event {
  ev_layer : str;
  ev_start : str;
  ev_end : str;
  ev_style : str;
  ev_name : str;
  ev_margin_l : str;
  ev_margin_r : str;
  ev_margin_v : str;
  ev_effect : str;
  ev_text : str
}.

Definition event_fields (e : event) : list str :=
  [ev_layer e; ev_start e; ev_end e; ev_style e; ev_name e;
   ev_margin_l e; ev_margin_r e; ev_margin_v e; ev_effect e].

(** The fields hold no comma and the text holds no newline. *)
Definition valid_event (e : event) : Prop :=
  Forall comma_free (event_fields e) /\ count_char NL (ev_text e) = O.

(** The line of the file for an event, with its terminator. *)
Definition event_line (e : event) : str :=
  dialogue_line (event_fields e) (ev_text e ++ [NL]).

(** The record the specification asks for an event. *)
Definition event_record (e : event) : dialogue :=
  {| start_time := ev_start e;
     end_time := ev_end e;
     dialog := strip (ev_text e) |}.

Definition groups_of (x : str * str * str * str) : gmap nat str :=
  let '(a, b, c, d) := x in
  <[4%nat := d]> (<[3%nat := c]> (<[2%nat := b]> (<[1%nat := a]> ∅))).

(** ** The JSON document of the specification *)

Definition quoted (s : str) : str := [QUOTE] ++ s ++ [QUOTE].

(** An object with the three keys in the order start_time, end_time,
    dialog, each with a string value, in the two-space layout. *)
Definition object_text (d : dialogue) : str :=
  lit "{"
  ++ NL :: lit "    " ++ quoted (lit "start_time") ++ lit ": "
  ++ encode_basestring (start_time d) ++ lit ","
  ++ NL :: lit "    " ++ quoted (lit "end_time") ++ lit ": "
  ++ encode_basestring (end_time d) ++ lit ","
  ++ NL :: lit "    " ++ quoted (lit "dialog") ++ lit ": "
  ++ encode_basestring (dialog d)
  ++ NL :: lit "  }".

(** An array of the given element texts, in their order. *)
Definition array_text (elements : list str) : str :=
  match elements with
  | [] => lit "[]"
  | _ :: _ =>
      lit "[" ++ NL :: lit "  "
      ++ join (lit "," ++ NL :: lit "  ") elements
      ++ NL :: lit "]"
  end.

Definition non_ascii (c : char) : Prop := 128 <= c.

#[global] Instance non_ascii_dec c : Decision (non_ascii c) :=
  decide (128 <= c).

(** ** A reader of JSON documents

    The grammar of JSON (RFC 8259) for the values that occur here,
    strings, arrays and objects, written as a reader: the theorems use it
    to say what a document is, whatever wrote it.  Numbers and the three
    literal names are not read.  In a string, a character below U+0020, a
    quote or a backslash stands only in an escape; an escape with four
    hexadecimal digits gives the code unit they spell. *)

Definition is_json_ws (c : char) : bool :=
  (c =? 32) || (c =? 10) || (c =? 13) || (c =? 9).

Definition hex_value (h : char) : option N :=
  if (48 <=? h) && (h <=? 57) then Some (h - 48)
  else if (97 <=? h) && (h <=? 102) then Some (h - 87)
  else if (65 <=? h) && (h <=? 70) then Some (h - 55)
  else None.

(** One character of a string, at the front of [t]. *)
Definition json_char (t : str) : option (char * str) :=
  match t with
  | [] => None
  | c :: t' =>
      if c =? BACKSLASH then
        match t' with
        | [] => None
        | x :: t'' =>
            if x =? QUOTE then Some (QUOTE, t'')
            else if x =? BACKSLASH then Some (BACKSLASH, t'')
            else if x =? 47 then Some (47, t'')
            else if x =? 98 then Some (8, t'')
            else if x =? 102 then Some (12, t'')
            else if x =? 110 then Some (10, t'')
            else if x =? 114 then Some (13, t'')
            else if x =? 116 then Some (9, t'')
            else if x =? 117 then
              match t'' with
              | h1 :: h2 :: h3 :: h4 :: t3 =>
                  a ← hex_value h1; b ← hex_value h2;
                  c' ← hex_value h3; d ← hex_value h4;
                  Some (((a * 16 + b) * 16 + c') * 16 + d, t3)
              | _ => None
              end
            else None
        end
      else if (c =? QUOTE) || (c <? 32) then None
      else Some (c, t')
  end.

(** The characters of a string up to its closing quote, and what
    follows the quote. *)
Fixpoint json_string_body (fuel : nat) (t : str) : option (str * str) :=
  match fuel with
  | O => None
  | S n =>
      match t with
      | [] => None
      | c :: t' =>
          if c =? QUOTE then Some ([], t')
          else '(x, t'') ← json_char t;
               '(s, r) ← json_string_body n t'';
               Some (x :: s, r)
      end
  end.

(** A value at the front of [t], after optional white space, and what
    follows it; the elements of an array after its bracket; the members of
    an object after its brace. *)
Fixpoint json_value (fuel : nat) (t : str) {struct fuel} : option (json * str) :=
  match fuel with
  | O => None
  | S n =>
      match drop_while is_json_ws t with
      | [] => None
      | c :: t' =>
          if c =? QUOTE then
            '(s, r) ← json_string_body (length t') t'; Some (JStr s, r)
          else if c =? 91 then
            match drop_while is_json_ws t' with
            | [] => None
            | c' :: r =>
                if c' =? 93 then Some (JList [], r)
                else '(vs, r') ← json_elements n t'; Some (JList vs, r')
            end
          else if c =? 123 then
            match drop_while is_json_ws t' with
            | [] => None
            | c' :: r =>
                if c' =? 125 then Some (JDict [], r)
                else '(ms, r') ← json_members n t'; Some (JDict ms, r')
            end
          else None
      end
  end
with json_elements (fuel : nat) (t : str) {struct fuel}
    : option (list json * str) :=
  match fuel with
  | O => None
  | S n =>
      '(v, r) ← json_value n t;
      match drop_while is_json_ws r with
      | [] => None
      | c :: r' =>
          if c =? 44 then '(vs, r'') ← json_elements n r'; Some (v :: vs, r'')
          else if c =? 93 then Some ([v], r')
          else None
      end
  end
with json_members (fuel : nat) (t : str) {struct fuel}
    : option (list (list char * json) * str) :=
  match fuel with
  | O => None
  | S n =>
      match drop_while is_json_ws t with
      | [] => None
      | c :: t1 =>
          if c =? QUOTE then
            '(k, r) ← json_string_body (length t1) t1;
            match drop_while is_json_ws r with
            | [] => None
            | c2 :: r2 =>
                if c2 =? 58 then
                  '(v, r3) ← json_value n r2;
                  match drop_while is_json_ws r3 with
                  | [] => None
                  | c3 :: r4 =>
                      if c3 =? 44 then
                        '(ms, r5) ← json_members n r4; Some ((k, v) :: ms, r5)
                      else if c3 =? 125 then Some ([(k, v)], r4)
                      else None
                  end
                else None
            end
          else None
      end
  end.

(** The value of a document: one value, and nothing but white space
    after it. *)
Definition json_loads (t : str) : option json :=
  match json_value (length t) t with
  | Some (v, r) =>
      match drop_while is_json_ws r with
      | [] => Some v
      | _ :: _ => None
      end
  | None => None
  end.

(** The object the specification asks for a record: the three keys in
    their order, each with a string. *)
Definition record_object (d : dialogue) : json :=
  JDict [ (lit "start_time", JStr (start_time d));
          (lit "end_time", JStr (end_time d));
          (lit "dialog", JStr (dialog d)) ].

(** The lines the extraction pattern matches. *)
Definition matched (line : str) : Prop := is_Some (re_match dialogue_pattern line).

(** ** Texts made of lines, and a reader for escapes

    Definitions used to state and prove further properties: a text given
    line by line with the terminator of each line, and the reader of one
    escaped character, with which the encoding of strings is shown to
    lose nothing. *)

(** A line body with its terminator: "\r\n" or "\n". *)
Definition terminated (l : str * bool) : str :=
  l.1 ++ (if l.2 then [CR; NL] else [NL]).

Definition unhex (h : char) : N := if h <? 58 then h - 48 else h - 87.

(** Reads back, at the front of [t], what [escape_char] wrote for one
    character; a bare quote, which closes the string, is not one. *)
Definition unescape_char (t : str) : option (char * str) :=
  match t with
  | [] => None
  | c :: t' =>
      if c =? QUOTE then None
      else if c =? BACKSLASH then
        match t' with
        | [] => None
        | x :: t'' =>
            if x =? QUOTE then Some (QUOTE, t'')
            else if x =? BACKSLASH then Some (BACKSLASH, t'')
            else if x =? 98 then Some (8, t'')
            else if x =? 102 then Some (12, t'')
            else if x =? 110 then Some (10, t'')
            else if x =? 114 then Some (13, t'')
            else if x =? 116 then Some (9, t'')
            else if x =? 117 then
              match t'' with
              | _ :: _ :: h1 :: h2 :: t3 => Some (16 * unhex h1 + unhex h2, t3)
              | _ => None
              end
            else None
        end
      else Some (c, t')
  end.

(** A file system on which every read is interrupted from the keyboard. *)
Definition interrupted_fs : file_system unit := {|
  path_stat := fun _ _ => None;
  read_text := fun _ _ => inl (Exn KeyboardInterrupt []);
  write_text := fun m _ _ => (None, m)
|}.

(** * Properties *)

(** ** The matcher on the items of the pattern *)

Lemma cset_mem_notcomma c : cset_mem (NotIn [COMMA]) c = notcomma c.
Proof. unfold notcomma; simpl. by rewrite orb_false_r. Qed.

Lemma drop_while_ext p q s :
  (forall c, p c = q c) -> drop_while p s = drop_while q s.
Proof. intros E. induction s as [|c s IH]; simpl; [done|]. by rewrite E, IH. Qed.

Lemma take_while_drop_while p s : take_while p s ++ drop_while p s = s.
Proof. induction s as [|c s IH]; simpl; [done|]. destruct (p c); simpl; [by rewrite IH|done]. Qed.

Lemma length_drop_while_le p s : (length (drop_while p s) <= length s)%nat.
Proof. induction s as [|c s IH]; simpl; [lia|]. destruct (p c); simpl; lia. Qed.

Lemma take_upto_drop_while p s :
  take (length s - length (drop_while p s)) s = take_while p s.
Proof.
  rewrite <- (take_while_drop_while p s) at 1 3.
  rewrite length_app.
  replace (_ + _ - _)%nat with (length (take_while p s)) by lia.
  by rewrite take_app_length.
Qed.

(** When the continuation fails wherever the next character is one [a]
    accepts, the star can only stop at the end of the run. *)
Lemma star_run {R} a (k : str -> option R) s :
  (forall c s', cset_mem a c = true -> k (c :: s') = None) ->
  star a s k = k (drop_while (cset_mem a) s).
Proof.
  intros Hk. induction s as [|c s IH]; simpl; [done|].
  destruct (cset_mem a c) eqn:E; [|done].
  rewrite IH. destruct (k (drop_while _ s)) eqn:E'; [done|].
  by apply Hk.
Qed.

(** When the continuation succeeds at the end of the run, that is the
    match: the star is greedy. *)
Lemma star_greedy {R} a (k : str -> option R) s :
  is_Some (k (drop_while (cset_mem a) s)) ->
  star a s k = k (drop_while (cset_mem a) s).
Proof.
  induction s as [|c s IH]; simpl; [done|].
  destruct (cset_mem a c) eqn:E; [|done].
  intros HS. rewrite (IH HS). by destruct HS as [r ->].
Qed.

Lemma exec_literal {R} p s g (k : str -> gmap nat str -> option R) :
  exec (literal p) s g k =
  if startswith s p then k (drop (length p) s) g else None.
Proof.
  revert s. induction p as [|x p IH]; intros s; simpl.
  - by rewrite drop_0.
  - destruct s as [|c s]; simpl; [done|].
    destruct (c =? x); simpl; [apply IH|done].
Qed.

Lemma exec_literal_then {R} p r s g (k : str -> gmap nat str -> option R) :
  exec (Seq (literal p) r) s g k =
  if startswith s p then exec r (drop (length p) s) g k else None.
Proof. cbn [exec]. by rewrite exec_literal. Qed.

Lemma exec_comma {R} s g (k : str -> gmap nat str -> option R) :
  exec comma s g k =
  match s with c :: s' => if notcomma c then None else k s' g | [] => None end.
Proof. destruct s as [|c s]; simpl; [done|]. unfold notcomma. by destruct (c =? COMMA). Qed.

Lemma drop_while_notcomma_head s c s' :
  drop_while notcomma s = c :: s' -> notcomma c = false.
Proof.
  induction s as [|x s IH]; simpl; [done|].
  destruct (notcomma x) eqn:E; [done|]. by intros [= <- _].
Qed.

(** An ungrouped field and its comma. *)
Lemma exec_field_comma {R} r s g (k : str -> gmap nat str -> option R) :
  exec (Seq field (Seq comma r)) s g k =
  match cut s with
  | Some (_, rest) => exec r rest g k
  | None => None
  end.
Proof.
  cbn [exec field]. rewrite star_run.
  - rewrite (drop_while_ext _ notcomma) by apply cset_mem_notcomma.
    unfold cut. destruct (drop_while notcomma s) as [|c s'] eqn:E; [done|].
    simpl. apply drop_while_notcomma_head in E. unfold notcomma in E.
    by destruct (c =? COMMA).
  - intros c s'. rewrite cset_mem_notcomma. unfold notcomma. simpl.
    by destruct (c =? COMMA).
Qed.

(** A field that is group [n], and its comma. *)
Lemma exec_group_field_comma {R} n r s g (k : str -> gmap nat str -> option R) :
  exec (Seq (Group n field) (Seq comma r)) s g k =
  match cut s with
  | Some (f, rest) => exec r rest (<[n := f]> g) k
  | None => None
  end.
Proof.
  cbn [exec field]. rewrite star_run.
  - rewrite (drop_while_ext _ notcomma) by apply cset_mem_notcomma.
    rewrite take_upto_drop_while.
    unfold cut. destruct (drop_while notcomma s) as [|c s'] eqn:E; [done|].
    simpl. apply drop_while_notcomma_head in E. unfold notcomma in E.
    by destruct (c =? COMMA).
  - intros c s'. rewrite cset_mem_notcomma. unfold notcomma. simpl.
    by destruct (c =? COMMA).
Qed.

Lemma exec_group_then {R} n r r' s g (k : str -> gmap nat str -> option R) :
  exec (Seq (Group n r) r') s g k =
  exec r s g (fun s' g' =>
    exec r' s' (<[n := take (length s - length s') s]> g') k).
Proof. reflexivity. Qed.

Lemma exec_eps {R} s g (k : str -> gmap nat str -> option R) :
  exec Eps s g k = k s g.
Proof. reflexivity. Qed.

(** The last group: the dot under a star, then the end of the pattern. *)
Lemma exec_group_rest n s g :
  exec (Seq (Group n (Star Dot)) Eps) s g (fun _ g' => Some g') =
  Some (<[n := take_while notnl s]> g).
Proof.
  cbn [exec]. rewrite star_greedy by done.
  by rewrite (take_upto_drop_while notnl).
Qed.

(** The pattern computes the split of the specification. *)
Theorem re_match_split line :
  re_match dialogue_pattern line = groups_of <$> split_dialogue line.
Proof.
  unfold re_match, dialogue_pattern, split_dialogue.
  cbn [seq_of foldr]. change (foldr Seq Eps) with seq_of.
  rewrite exec_literal_then.
  destruct (startswith line _); [|done].
  change (length (lit "Dialogue: ")) with 10%nat.
  generalize (drop 10 line). intros r0.
  rewrite exec_field_comma.
  destruct (cut r0) as [[f0 r1]|]; [|done]. cbn [mbind option_bind].
  rewrite exec_group_field_comma.
  destruct (cut r1) as [[f1 r2]|]; [|done]. cbn [mbind option_bind].
  rewrite exec_group_field_comma.
  destruct (cut r2) as [[f2 r3]|]; [|done]. cbn [mbind option_bind].
  rewrite exec_group_then.
  do 6 (rewrite exec_field_comma;
        destruct (cut _) as [[? ?]|]; [|done]; cbn [mbind option_bind]).
  rewrite exec_eps, exec_group_rest. done.
Qed.

(** ** Prefixes, counting and cutting *)

Lemma startswith_spec s p : startswith s p = true <-> exists t, s = p ++ t.
Proof.
  revert s. induction p as [|x p IH]; intros s; simpl.
  - split; [by exists s|done].
  - destruct s as [|c s].
    + split; [done|]. by intros [t [=]].
    + rewrite andb_true_iff, N.eqb_eq, IH. split.
      * intros [-> [t ->]]. by exists t.
      * intros [t [= -> ->]]. split; [done|by exists t].
Qed.

Lemma startswith_app s p q : startswith s (p ++ q) = true -> startswith s p = true.
Proof.
  rewrite !startswith_spec. intros [t ->]. exists (q ++ t). by rewrite app_assoc.
Qed.

Lemma count_char_app x s t :
  count_char x (s ++ t) = (count_char x s + count_char x t)%nat.
Proof. induction s as [|c s IH]; simpl; [done|]. destruct (c =? x); lia. Qed.

Lemma count_char_take_while_notcomma s : count_char COMMA (take_while notcomma s) = O.
Proof.
  induction s as [|c s IH]; simpl; [done|]. unfold notcomma at 1.
  destruct (c =? COMMA) eqn:E; simpl; [done|]. by rewrite E.
Qed.

Lemma drop_while_notcomma_free s : count_char COMMA s = O -> drop_while notcomma s = [].
Proof.
  induction s as [|c s IH]; simpl; [done|]. unfold notcomma at 1.
  destruct (c =? COMMA); simpl; [done|apply IH].
Qed.

Lemma take_while_notcomma_app f rest :
  count_char COMMA f = O -> take_while notcomma (f ++ COMMA :: rest) = f.
Proof.
  induction f as [|c f IH]; simpl; [done|]. unfold notcomma at 1.
  destruct (c =? COMMA); simpl; [done|]. intros H. by rewrite IH.
Qed.

Lemma drop_while_notcomma_app f rest :
  count_char COMMA f = O -> drop_while notcomma (f ++ COMMA :: rest) = COMMA :: rest.
Proof.
  induction f as [|c f IH]; simpl; [done|]. unfold notcomma at 1.
  destruct (c =? COMMA); simpl; [done|apply IH].
Qed.

(** [cut] succeeds exactly on [f ++ "," ++ rest] with [f] free of commas. *)
Lemma cut_app f rest :
  count_char COMMA f = O -> cut (f ++ COMMA :: rest) = Some (f, rest).
Proof.
  intros H. unfold cut. by rewrite drop_while_notcomma_app, take_while_notcomma_app.
Qed.

Lemma cut_Some s f rest :
  cut s = Some (f, rest) <-> s = f ++ COMMA :: rest /\ count_char COMMA f = O.
Proof.
  split; [|intros [-> H]; by apply cut_app].
  unfold cut. destruct (drop_while notcomma s) as [|c s'] eqn:E; [done|].
  intros [= <- <-]. split; [|apply count_char_take_while_notcomma].
  pose proof (drop_while_notcomma_head _ _ _ E) as Hc.
  unfold notcomma in Hc. apply negb_false_iff, N.eqb_eq in Hc. subst c.
  by rewrite <- E, take_while_drop_while.
Qed.

Lemma cut_None s : cut s = None <-> count_char COMMA s = O.
Proof.
  split.
  - unfold cut. destruct (drop_while notcomma s) eqn:E; [|done]. intros _.
    rewrite <- (take_while_drop_while notcomma s), E, app_nil_r.
    apply count_char_take_while_notcomma.
  - intros H. unfold cut. by rewrite drop_while_notcomma_free.
Qed.

Lemma count_char_cut s f rest :
  cut s = Some (f, rest) -> count_char COMMA s = S (count_char COMMA rest).
Proof.
  rewrite cut_Some. intros [-> H]. rewrite count_char_app, H. simpl. done.
Qed.

(** With at least [n] commas, the text after the [n]-th comma exists. *)
Lemma after_commas_is_Some n s :
  (n <= count_char COMMA s)%nat -> is_Some (after_commas n s).
Proof.
  revert s. induction n as [|n IH]; intros s Hn; simpl; [by eexists|].
  destruct (cut s) as [[f rest]|] eqn:E.
  - simpl. apply IH. apply count_char_cut in E. lia.
  - apply cut_None in E. lia.
Qed.

Lemma after_commas_count n s rest :
  after_commas n s = Some rest -> (n <= count_char COMMA s)%nat.
Proof.
  revert s. induction n as [|n IH]; intros s; simpl; [lia|].
  destruct (cut s) as [[f r]|] eqn:E; simpl; [|done].
  intros H. apply IH in H. apply count_char_cut in E. lia.
Qed.

Lemma split_comma_cut s f rest :
  cut s = Some (f, rest) -> split_comma s = f :: split_comma rest.
Proof.
  rewrite cut_Some. unfold split_comma. intros [-> H].
  induction f as [|c f IH]; simpl.
  - done.
  - simpl in H. destruct (c =? COMMA); [done|]. by rewrite (IH H).
Qed.

(** ** One line *)

Lemma parse_line_split line :
  parse_line line =
  (fun '(a, b, _, d) => Dialogue a b (strip d)) <$> split_dialogue line.
Proof.
  unfold parse_line. rewrite re_match_split.
  destruct (startswith line (lit "Dialogue:")) eqn:P.
  - by destruct (split_dialogue line) as [[[[a b] c] d]|].
  - unfold split_dialogue.
    destruct (startswith line (lit "Dialogue: ")) eqn:P'; [|done].
    change (lit "Dialogue: ") with (lit "Dialogue:" ++ lit " ") in P'.
    apply startswith_app in P'. congruence.
Qed.

Lemma take_app_minus {A} (a t : list A) :
  take (length (a ++ t) - length t) (a ++ t) = a.
Proof.
  rewrite length_app. replace (_ + _ - _)%nat with (length a) by lia.
  by rewrite take_app_length.
Qed.

Lemma split_dialogue_line f0 f1 f2 f3 f4 f5 f6 f7 f8 text :
  Forall comma_free [f0; f1; f2; f3; f4; f5; f6; f7; f8] ->
  split_dialogue (dialogue_line [f0; f1; f2; f3; f4; f5; f6; f7; f8] text) =
  Some (f1, f2, with_commas [f3; f4; f5; f6; f7; f8], take_while notnl text).
Proof.
  intros H. repeat (apply Forall_cons_1 in H as [? H]).
  unfold split_dialogue, dialogue_line.
  replace (startswith _ _) with true
    by (symmetry; apply startswith_spec; by eexists).
  change (drop 10 (lit "Dialogue: " ++ ?x)) with x.
  unfold with_commas; cbn [map concat]. rewrite app_nil_r, <- !app_assoc.
  cbn ["++"].
  do 3 (rewrite cut_app by done; cbn [mbind option_bind]).
  set (r3 := f3 ++ _).
  assert (r3 = with_commas [f3; f4; f5; f6; f7; f8] ++ text) as E3.
  { unfold with_commas; cbn [map concat]. by rewrite app_nil_r, <- !app_assoc. }
  subst r3. do 6 (rewrite cut_app by done; cbn [mbind option_bind]).
  rewrite E3, take_app_minus.
  unfold with_commas; cbn [map concat]. by rewrite app_nil_r, <- !app_assoc.
Qed.

Lemma split_dialogue_inv line a b c d :
  split_dialogue line = Some (a, b, c, d) ->
  exists f0 f3 f4 f5 f6 f7 f8 text,
    line = dialogue_line [f0; a; b; f3; f4; f5; f6; f7; f8] text
    /\ Forall comma_free [f0; a; b; f3; f4; f5; f6; f7; f8]
    /\ c = with_commas [f3; f4; f5; f6; f7; f8]
    /\ d = take_while notnl text.
Proof.
  unfold split_dialogue.
  destruct (startswith line _) eqn:P; [|done].
  apply startswith_spec in P as [r0 ->].
  change (drop 10 (lit "Dialogue: " ++ ?x)) with x.
  destruct (cut r0) as [[f0 r1]|] eqn:E0; [|done]; cbn [mbind option_bind].
  destruct (cut r1) as [[f1 r2]|] eqn:E1; [|done]; cbn [mbind option_bind].
  destruct (cut r2) as [[f2 r3]|] eqn:E2; [|done]; cbn [mbind option_bind].
  destruct (cut r3) as [[f3 r4]|] eqn:E3; [|done]; cbn [mbind option_bind].
  destruct (cut r4) as [[f4 r5]|] eqn:E4; [|done]; cbn [mbind option_bind].
  destruct (cut r5) as [[f5 r6]|] eqn:E5; [|done]; cbn [mbind option_bind].
  destruct (cut r6) as [[f6 r7]|] eqn:E6; [|done]; cbn [mbind option_bind].
  destruct (cut r7) as [[f7 r8]|] eqn:E7; [|done]; cbn [mbind option_bind].
  destruct (cut r8) as [[f8 r9]|] eqn:E8; [|done]; cbn [mbind option_bind].
  intros [= <- <- <- <-].
  apply cut_Some in E0 as [-> ?], E1 as [-> ?], E2 as [-> ?], E3 as [-> ?],
    E4 as [-> ?], E5 as [-> ?], E6 as [-> ?], E7 as [-> ?], E8 as [-> ?].
  exists f0, f3, f4, f5, f6, f7, f8, r9.
  assert (f3 ++ COMMA :: f4 ++ COMMA :: f5 ++ COMMA :: f6 ++ COMMA :: f7
            ++ COMMA :: f8 ++ COMMA :: r9
          = with_commas [f3; f4; f5; f6; f7; f8] ++ r9) as E3.
  { unfold with_commas; cbn [map concat]. by rewrite app_nil_r, <- !app_assoc. }
  split; [|split; [|split]].
  - unfold dialogue_line, with_commas; cbn [map concat].
    by rewrite app_nil_r, <- !app_assoc.
  - repeat constructor; done.
  - by rewrite E3, take_app_minus.
  - done.
Qed.

(** ** Stripping *)

Lemma forallb_take_while p s : forallb p (take_while p s) = true.
Proof. induction s as [|c s IH]; simpl; [done|]. destruct (p c) eqn:E; simpl; [by rewrite E|done]. Qed.

Lemma drop_while_all p s : forallb p s = true -> drop_while p s = [].
Proof. induction s as [|c s IH]; simpl; [done|]. destruct (p c); simpl; [apply IH|done]. Qed.

Lemma drop_while_nil p s : drop_while p s = [] -> forallb p s = true.
Proof. induction s as [|c s IH]; simpl; [done|]. destruct (p c); simpl; [apply IH|done]. Qed.

Lemma drop_while_app_all p a b :
  forallb p a = true -> drop_while p (a ++ b) = drop_while p b.
Proof. induction a as [|c a IH]; simpl; [done|]. destruct (p c); simpl; [apply IH|done]. Qed.

Lemma drop_while_app_cons p s w c t :
  drop_while p s = c :: t -> drop_while p (s ++ w) = (c :: t) ++ w.
Proof.
  induction s as [|x s IH]; simpl; [done|].
  destruct (p x); [apply IH|]. by intros [= -> ->].
Qed.

Lemma drop_while_head p s c t : drop_while p s = c :: t -> p c = false.
Proof.
  induction s as [|x s IH]; simpl; [done|].
  destruct (p x) eqn:E; [apply IH|]. by intros [= <- _].
Qed.

Lemma forallb_reverse p (s : str) : forallb p (reverse s) = forallb p s.
Proof.
  induction s as [|c s IH]; simpl; [done|].
  rewrite reverse_cons, forallb_app, IH. simpl. rewrite andb_true_r. apply andb_comm.
Qed.

Lemma rstrip_app_space t ws :
  forallb isspace ws = true -> rstrip (t ++ ws) = rstrip t.
Proof.
  intros H. unfold rstrip. rewrite reverse_app, drop_while_app_all; [done|].
  by rewrite forallb_reverse.
Qed.

(** Whitespace at the end of the text, such as the line terminator, does
    not change the stripped text. *)
Lemma strip_app_space s ws :
  forallb isspace ws = true -> strip (s ++ ws) = strip s.
Proof.
  intros H. unfold strip, lstrip.
  destruct (drop_while isspace s) as [|c t] eqn:E.
  - rewrite drop_while_app_all by by apply drop_while_nil.
    by rewrite drop_while_all.
  - rewrite (drop_while_app_cons _ _ _ _ _ E). by apply rstrip_app_space.
Qed.

(** The stripped text is the text without a whitespace prefix and a
    whitespace suffix. *)
Lemma strip_decompose s :
  exists ws1 ws2,
    s = ws1 ++ strip s ++ ws2
    /\ forallb isspace ws1 = true /\ forallb isspace ws2 = true.
Proof.
  exists (take_while isspace s),
         (reverse (take_while isspace (reverse (lstrip s)))).
  split; [|split].
  - unfold strip, rstrip. rewrite <- reverse_app, take_while_drop_while.
    rewrite reverse_involutive. unfold lstrip.
    by rewrite take_while_drop_while.
  - apply forallb_take_while.
  - rewrite forallb_reverse. apply forallb_take_while.
Qed.

Lemma strip_last s c : last (strip s) = Some c -> isspace c = false.
Proof.
  unfold strip, rstrip. rewrite last_reverse.
  destruct (drop_while isspace (reverse (lstrip s))) as [|x t] eqn:E; [done|].
  intros [= ->]. by apply drop_while_head in E.
Qed.

Lemma strip_head s c : head (strip s) = Some c -> isspace c = false.
Proof.
  intros H.
  assert (exists t, strip s = c :: t) as [t Et]
    by (destruct (strip s); simplify_eq/=; eauto).
  assert (exists w, lstrip s = strip s ++ w) as [w Ew].
  { exists (reverse (take_while isspace (reverse (lstrip s)))).
    unfold strip, rstrip.
    by rewrite <- reverse_app, take_while_drop_while, reverse_involutive. }
  rewrite Et in Ew. unfold lstrip in Ew. by apply drop_while_head in Ew.
Qed.

Lemma count_char_space x ws :
  isspace x = false -> forallb isspace ws = true -> count_char x ws = O.
Proof.
  intros Hx. induction ws as [|c ws IH]; simpl; [done|].
  intros [Hc Hws]%andb_true_iff. destruct (c =? x) eqn:E; [|by apply IH].
  apply N.eqb_eq in E. congruence.
Qed.

(** ** Lines of a file *)

Lemma take_while_notnl_line s :
  forallb notnl (removelast s) = true ->
  exists ws, s = take_while notnl s ++ ws /\ forallb isspace ws = true.
Proof.
  induction s as [|c s IH]; simpl; [by exists []|].
  destruct s as [|c' s].
  - intros _. destruct (notnl c) eqn:E.
    + by exists [].
    + exists [c]. split; [done|]. unfold notnl in E.
      apply negb_false_iff, N.eqb_eq in E. by subst c.
  - intros [Hc H]%andb_true_iff. rewrite Hc.
    destruct (IH H) as (ws & E & Hws). exists ws. split; [|done].
    exact (f_equal (cons c) E).
Qed.

Lemma removelast_suffix (a b : str) :
  forallb notnl (removelast (a ++ b)) = true ->
  forallb notnl (removelast b) = true.
Proof.
  destruct b as [|c b]; [done|].
  rewrite removelast_app by done. rewrite forallb_app.
  by intros [_ ?]%andb_true_iff.
Qed.

Lemma strip_line_rest a rest :
  is_line (a ++ rest) = true -> strip (take_while notnl rest) = strip rest.
Proof.
  intros H.
  assert (forallb notnl (removelast rest) = true) as Hr.
  { apply (removelast_suffix a). unfold is_line in H. by destruct (a ++ rest). }
  destruct (take_while_notnl_line _ Hr) as (ws & E & Hws).
  rewrite E at 2. by rewrite strip_app_space.
Qed.

Lemma file_lines_is_line s : Forall (fun l => is_line l = true) (file_lines s).
Proof.
  induction s as [|c s IH]; simpl; [constructor|].
  destruct (c =? NL) eqn:E; [by constructor|].
  destruct (file_lines s) as [|l ls]; [by repeat constructor|].
  apply Forall_cons_1 in IH as [Hl Hls]. constructor; [|done].
  destruct l as [|c' l]; [done|]. simpl in *. unfold notnl at 1. by rewrite E.
Qed.

(** The lines that [parse_ass_file] iterates over have that shape. *)
Lemma file_line_is_line content line :
  line ∈ file_lines (universal_newlines content) -> is_line line = true.
Proof.
  intros H. by eapply (proj1 (Forall_forall _ _) (file_lines_is_line _)).
Qed.

(** ** The loop *)

Lemma parse_lines_from_omap acc lines :
  parse_lines_from acc lines = acc ++ omap parse_line lines.
Proof.
  revert acc. unfold parse_lines_from.
  induction lines as [|l lines IH]; intros acc; simpl; [by rewrite app_nil_r|].
  rewrite IH. destruct (parse_line l); [|done]. by rewrite <- app_assoc.
Qed.

Lemma parse_lines_omap lines : parse_lines lines = omap parse_line lines.
Proof. apply parse_lines_from_omap. Qed.

Lemma parse_lines_app l1 l2 :
  parse_lines (l1 ++ l2) = parse_lines l1 ++ parse_lines l2.
Proof. rewrite !parse_lines_omap. apply omap_app. Qed.

Lemma parse_lines_cons l ls :
  parse_lines (l :: ls) =
  match parse_line l with Some d => d :: parse_lines ls | None => parse_lines ls end.
Proof. by rewrite !parse_lines_omap. Qed.

(** ** Lines in terms of their fields *)

Lemma with_commas_cons f fs rest :
  with_commas (f :: fs) ++ rest = f ++ COMMA :: with_commas fs ++ rest.
Proof. unfold with_commas; simpl. by rewrite <- !app_assoc. Qed.

(** The text after the [n]-th comma exists exactly when the string is [n]
    fields free of commas, each closed by a comma, and then that text. *)
Lemma after_commas_Some n s rest :
  after_commas n s = Some rest <->
  exists fs, length fs = n /\ Forall comma_free fs /\ s = with_commas fs ++ rest.
Proof.
  revert s. induction n as [|n IH]; intros s; simpl.
  - split.
    + intros [= ->]. by exists [].
    + intros (fs & ?%nil_length_inv & _ & ->). by subst fs.
  - split.
    + destruct (cut s) as [[f r]|] eqn:E; simpl; [|done].
      intros (fs & <- & Hfs & ->)%IH. apply cut_Some in E as [-> Hf].
      exists (f :: fs).
      split; [done|split; [by constructor|by rewrite with_commas_cons]].
    + intros (fs & Hn & Hfs & ->). destruct fs as [|f fs]; [done|].
      apply Forall_cons_1 in Hfs as [Hf Hfs]. rewrite with_commas_cons.
      rewrite cut_app by done. simpl. apply IH. exists fs.
      by simplify_eq/=.
Qed.

Lemma after_commas_with_commas fs rest :
  Forall comma_free fs ->
  after_commas (length fs) (with_commas fs ++ rest) = Some rest.
Proof. intros H. apply after_commas_Some. by exists fs. Qed.

Lemma split_comma_with_commas fs rest :
  Forall comma_free fs ->
  split_comma (with_commas fs ++ rest) = fs ++ split_comma rest.
Proof.
  induction 1 as [|f fs Hf Hfs IH]; [done|].
  rewrite with_commas_cons, (split_comma_cut _ f (with_commas fs ++ rest)).
  - by rewrite IH.
  - by apply cut_app.
Qed.

(** The part of a dialogue line after the marker: the space belongs to
    the first field. *)
Lemma drop_marker f0 fs text :
  drop 9 (dialogue_line (f0 :: fs) text) = with_commas ((32 :: f0) :: fs) ++ text.
Proof. unfold dialogue_line. by rewrite !with_commas_cons. Qed.

Lemma comma_free_space f : comma_free f -> comma_free (32 :: f).
Proof. done. Qed.

Lemma parse_dialogue_line f0 f1 f2 f3 f4 f5 f6 f7 f8 text :
  Forall comma_free [f0; f1; f2; f3; f4; f5; f6; f7; f8] ->
  parse_line (dialogue_line [f0; f1; f2; f3; f4; f5; f6; f7; f8] text) =
  Some (Dialogue f1 f2 (strip (take_while notnl text))).
Proof. intros H. by rewrite parse_line_split, split_dialogue_line. Qed.

Lemma parse_line_inv line d :
  parse_line line = Some d ->
  exists f0 f3 f4 f5 f6 f7 f8 text,
    line = dialogue_line
             [f0; start_time d; end_time d; f3; f4; f5; f6; f7; f8] text
    /\ Forall comma_free
         [f0; start_time d; end_time d; f3; f4; f5; f6; f7; f8]
    /\ dialog d = strip (take_while notnl text).
Proof.
  rewrite parse_line_split.
  destruct (split_dialogue line) as [[[[a b] c] t]|] eqn:E; [|done].
  intros [= <-]; simpl.
  apply split_dialogue_inv in E
    as (f0 & f3 & f4 & f5 & f6 & f7 & f8 & text & -> & H & _ & ->).
  by exists f0, f3, f4, f5, f6, f7, f8, text.
Qed.

Lemma take_while_notnl_free s : count_char NL s = O -> take_while notnl s = s.
Proof.
  induction s as [|c s IH]; simpl; [done|]. unfold notnl at 1.
  destruct (c =? NL); simpl; [done|]. intros H. by rewrite IH.
Qed.

Lemma take_while_notnl_snoc s :
  count_char NL s = O -> take_while notnl (s ++ [NL]) = s.
Proof.
  induction s as [|c s IH]; simpl; [done|]. unfold notnl at 1.
  destruct (c =? NL); simpl; [done|]. intros H. by rewrite IH.
Qed.

(** The line of a valid event yields the record of the event. *)
Lemma parse_event_line e :
  valid_event e -> parse_line (event_line e) = Some (event_record e).
Proof.
  intros [Hf Ht]. unfold event_line, event_fields in *.
  rewrite parse_dialogue_line by done. by rewrite take_while_notnl_snoc.
Qed.

Lemma parse_event_lines es :
  Forall valid_event es -> parse_lines (map event_line es) = map event_record es.
Proof.
  induction 1 as [|e es He _ IH]; [done|].
  cbn [map]. by rewrite parse_lines_cons, parse_event_line, IH.
Qed.

(** A line that begins with the marker and a space and has nine commas
    after the marker is a [dialogue_line]. *)
Lemma dialogue_line_of_commas line :
  startswith line (lit "Dialogue: ") = true ->
  (9 <= count_char COMMA (drop 9 line))%nat ->
  exists f0 f1 f2 f3 f4 f5 f6 f7 f8 text,
    line = dialogue_line [f0; f1; f2; f3; f4; f5; f6; f7; f8] text
    /\ Forall comma_free [f0; f1; f2; f3; f4; f5; f6; f7; f8].
Proof.
  intros [r0 ->]%startswith_spec Hn.
  change (drop 9 (lit "Dialogue: " ++ r0)) with (32 :: r0) in Hn.
  change (count_char COMMA (32 :: r0)) with (count_char COMMA r0) in Hn.
  destruct (after_commas_is_Some _ _ Hn) as [text E].
  apply after_commas_Some in E as (fs & Hl & Hfs & ->).
  do 9 (destruct fs as [|? fs]; [done|]). destruct fs; [|done].
  eauto 15.
Qed.

(** The pattern matches exactly the lines that begin with the marker and
    a space and have at least nine commas. *)
Lemma re_match_is_Some line :
  is_Some (re_match dialogue_pattern line) <->
  startswith line (lit "Dialogue: ") = true
  /\ (9 <= count_char COMMA (drop 9 line))%nat.
Proof.
  rewrite re_match_split, fmap_is_Some. split.
  - intros [[[[a b] c] d] E].
    apply split_dialogue_inv in E
      as (f0 & f3 & f4 & f5 & f6 & f7 & f8 & text & -> & H & _ & _).
    split; [apply startswith_spec; by eexists|].
    rewrite drop_marker. apply (after_commas_count _ _ text).
    apply after_commas_Some. eexists. split; [|split; [|done]]; [done|].
    apply Forall_cons_1 in H as [? ?]. by constructor.
  - intros [P Hn].
    destruct (dialogue_line_of_commas _ P Hn)
      as (f0 & f1 & f2 & f3 & f4 & f5 & f6 & f7 & f8 & text & -> & H).
    rewrite split_dialogue_line by done. by eexists.
Qed.

Lemma parse_line_is_Some line :
  is_Some (parse_line line) <-> is_Some (re_match dialogue_pattern line).
Proof. by rewrite parse_line_split, re_match_split, !fmap_is_Some. Qed.

(** * The extractor and the specification *)

(** C1, as stated, fails: a line that begins with the marker "Dialogue:"
    with no space after the colon, and has nine commas after the marker,
    yields no record, because the pattern asks for the space. *)
Lemma C1_marker_without_space :
  let line := lit "Dialogue:0,0:00:01.00,0:00:02.00,Default,,0,0,0,,Hi there" in
  is_line line = true
  /\ startswith line (lit "Dialogue:") = true
  /\ (9 <= count_char COMMA (drop 9 line))%nat
  /\ split_comma (drop 9 line) !! 1%nat = Some (lit "0:00:01.00")
  /\ split_comma (drop 9 line) !! 2%nat = Some (lit "0:00:02.00")
  /\ after_commas 9 (drop 9 line) = Some (lit "Hi there")
  /\ parse_lines [line] = []
  /\ parse_ass_text line = [].
Proof. vm_compute. repeat split; lia || reflexivity. Qed.

(** C1, amended: every line of the file that begins with "Dialogue: " (the
    marker and one space) and has at least nine commas after the marker
    yields exactly one record: its start_time is field 1 and its end_time
    field 2 of the comma split of what follows the marker, and its dialog
    is what follows the ninth comma, stripped. *)
Theorem C1_dialogue_line_one_record line :
  is_line line = true ->
  startswith line (lit "Dialogue: ") = true ->
  (9 <= count_char COMMA (drop 9 line))%nat ->
  exists f1 f2 rest,
    split_comma (drop 9 line) !! 1%nat = Some f1
    /\ split_comma (drop 9 line) !! 2%nat = Some f2
    /\ after_commas 9 (drop 9 line) = Some rest
    /\ parse_lines [line] = [Dialogue f1 f2 (strip rest)].
Proof.
  intros Hl P Hn.
  destruct (dialogue_line_of_commas _ P Hn)
    as (f0 & f1 & f2 & f3 & f4 & f5 & f6 & f7 & f8 & text & -> & H).
  exists f1, f2, text.
  assert (Forall comma_free [32 :: f0; f1; f2; f3; f4; f5; f6; f7; f8]) as H'.
  { apply Forall_cons_1 in H as [? ?]. by constructor. }
  rewrite drop_marker, split_comma_with_commas by done.
  split; [done|]. split; [done|]. split.
  - exact (after_commas_with_commas _ _ H').
  - rewrite parse_lines_cons, parse_dialogue_line by done.
    unfold dialogue_line in Hl. rewrite app_assoc in Hl.
    by rewrite (strip_line_rest _ _ Hl).
Qed.

Lemma C1_dialogue_line_one_record_witness :
  let line := lit "Dialogue: 0,0:00:01.00,0:00:02.00,Default,,0,0,0,,Wait, what?" ++ [NL] in
  is_line line = true
  /\ startswith line (lit "Dialogue: ") = true
  /\ (9 <= count_char COMMA (drop 9 line))%nat
  /\ exists f1 f2 rest,
       split_comma (drop 9 line) !! 1%nat = Some f1
       /\ split_comma (drop 9 line) !! 2%nat = Some f2
       /\ after_commas 9 (drop 9 line) = Some rest
       /\ parse_lines [line] = [Dialogue f1 f2 (strip rest)].
Proof.
  intros line.
  assert (is_line line = true) as H1 by reflexivity.
  assert (startswith line (lit "Dialogue: ") = true) as H2 by reflexivity.
  assert (9 <= count_char COMMA (drop 9 line))%nat as H3 by (vm_compute; lia).
  exact (conj H1 (conj H2 (conj H3 (C1_dialogue_line_one_record line H1 H2 H3)))).
Defined.

(** C2: the well-formed line of the specification yields exactly the
    record with start_time "0:00:01.00", end_time "0:00:02.00" and dialog
    "Hi there", with or without its line terminator, alone or as the whole
    text of a file. *)
Theorem C2_field_mapping :
  let line := lit "Dialogue: 0,0:00:01.00,0:00:02.00,Default,,0,0,0,,Hi there" in
  let record := Dialogue (lit "0:00:01.00") (lit "0:00:02.00") (lit "Hi there") in
  parse_line line = Some record
  /\ parse_lines [line] = [record]
  /\ parse_lines [line ++ [NL]] = [record]
  /\ parse_ass_text line = [record]
  /\ parse_ass_text (line ++ [CR; NL]) = [record].
Proof. vm_compute. done. Qed.

(** C3: in a matched line of the file only the first nine commas after
    the marker delimit fields: the dialog is the whole text after the
    ninth comma, stripped; it is one contiguous piece of that text, set off
    by whitespace only, and holds every comma of it. *)
Theorem C3_fixed_arity_split line d :
  is_line line = true ->
  parse_line line = Some d ->
  exists rest ws1 ws2,
    after_commas 9 (drop 9 line) = Some rest
    /\ dialog d = strip rest
    /\ rest = ws1 ++ dialog d ++ ws2
    /\ forallb isspace ws1 = true /\ forallb isspace ws2 = true
    /\ count_char COMMA (dialog d) = count_char COMMA rest.
Proof.
  intros Hl Hd.
  destruct (parse_line_inv _ _ Hd)
    as (f0 & f3 & f4 & f5 & f6 & f7 & f8 & text & -> & H & Ed).
  unfold dialogue_line in Hl. rewrite app_assoc in Hl.
  rewrite (strip_line_rest _ _ Hl) in Ed.
  destruct (strip_decompose text) as (ws1 & ws2 & E & H1 & H2).
  exists text, ws1, ws2. rewrite Ed. repeat split; try done.
  - rewrite drop_marker.
    apply (after_commas_with_commas (_ :: _ :: _ :: _ :: _ :: _ :: _ :: _ :: [_])).
    apply Forall_cons_1 in H as [? ?]. by constructor.
  - rewrite E at 2. rewrite !count_char_app.
    rewrite (count_char_space COMMA ws1), (count_char_space COMMA ws2) by done.
    lia.
Qed.

Lemma C3_fixed_arity_split_witness :
  let line := lit "Dialogue: 0,0:00:01.00,0:00:02.00,Default,,0,0,0,, Wait, what? " ++ [NL] in
  let d := Dialogue (lit "0:00:01.00") (lit "0:00:02.00") (lit "Wait, what?") in
  is_line line = true
  /\ parse_line line = Some d
  /\ exists rest ws1 ws2,
       after_commas 9 (drop 9 line) = Some rest
       /\ dialog d = strip rest
       /\ rest = ws1 ++ dialog d ++ ws2
       /\ forallb isspace ws1 = true /\ forallb isspace ws2 = true
       /\ count_char COMMA (dialog d) = count_char COMMA rest.
Proof.
  intros line d.
  assert (is_line line = true) as H1 by reflexivity.
  assert (parse_line line = Some d) as H2 by (vm_compute; reflexivity).
  exact (conj H1 (conj H2 (C3_fixed_arity_split line d H1 H2))).
Defined.

(** Why the theorems above speak of lines of the file: on a string with
    a newline inside, which the iteration over a file never yields, the
    dot stops at the newline. *)
Example text_stops_at_newline :
  let s := lit "Dialogue: 0,1,2,3,4,5,6,7,8,one" ++ [NL] ++ lit "two" in
  is_line s = false
  /\ parse_line s = Some (Dialogue (lit "1") (lit "2") (lit "one")).
Proof. vm_compute. done. Qed.

(** C4: a line that starts with "Dialogue:" but does not match the
    pattern yields no record and stops nothing: between the lines of valid
    events, the records extracted are exactly the records of those events,
    in order; and among any lines whatever, the records are those
    extracted without the line. *)
Theorem C4_malformed_line_skipped es1 es2 before bad after :
  Forall valid_event es1 ->
  Forall valid_event es2 ->
  startswith bad (lit "Dialogue:") = true ->
  re_match dialogue_pattern bad = None ->
  parse_lines (map event_line es1 ++ bad :: map event_line es2)
  = map event_record es1 ++ map event_record es2
  /\ parse_lines (before ++ bad :: after) = parse_lines (before ++ after).
Proof.
  intros H1 H2 _ Hm.
  assert (parse_line bad = None) as E.
  { apply eq_None_not_Some. rewrite parse_line_is_Some, Hm. by intros [? ?]. }
  split.
  - by rewrite parse_lines_app, parse_lines_cons, E, !parse_event_lines.
  - by rewrite !parse_lines_app, parse_lines_cons, E.
Qed.

Lemma C4_malformed_line_skipped_witness :
  let e1 := Event (lit "0") (lit "0:00:01.00") (lit "0:00:02.00") (lit "Default")
                  [] (lit "0") (lit "0") (lit "0") [] (lit "Hi there") in
  let e2 := Event (lit "0") (lit "0:00:05.00") (lit "0:00:06.50") (lit "Default")
                  [] (lit "0") (lit "0") (lit "0") [] (lit " Wait, what? ") in
  let bad := lit "Dialogue: 0,0:00:03.00,0:00:04.00,Default" ++ [NL] in
  Forall valid_event [e1] /\ Forall valid_event [e2]
  /\ startswith bad (lit "Dialogue:") = true
  /\ re_match dialogue_pattern bad = None
  /\ event_line e1
     = lit "Dialogue: 0,0:00:01.00,0:00:02.00,Default,,0,0,0,,Hi there" ++ [NL]
  /\ parse_lines (map event_line [e1] ++ bad :: map event_line [e2])
     = [ Dialogue (lit "0:00:01.00") (lit "0:00:02.00") (lit "Hi there");
         Dialogue (lit "0:00:05.00") (lit "0:00:06.50") (lit "Wait, what?") ]
  /\ parse_lines ([lit "[Events]" ++ [NL]] ++ bad :: [event_line e2])
     = parse_lines ([lit "[Events]" ++ [NL]] ++ [event_line e2]).
Proof.
  intros e1 e2 bad.
  assert (Forall valid_event [e1]) as H1 by (repeat constructor).
  assert (Forall valid_event [e2]) as H2 by (repeat constructor).
  assert (startswith bad (lit "Dialogue:") = true) as H3 by reflexivity.
  assert (re_match dialogue_pattern bad = None) as H4 by (vm_compute; reflexivity).
  destruct (C4_malformed_line_skipped [e1] [e2] [lit "[Events]" ++ [NL]] bad
              [event_line e2] H1 H2 H3 H4) as [K1 K2].
  exact (conj H1 (conj H2 (conj H3 (conj H4 (conj eq_refl (conj K1 K2)))))).
Defined.

(** C5: the records correspond one to one, in order, to the lines that
    the pattern matches: the i-th record is the record of the i-th matched
    line, and there are as many records as matched lines. *)
Theorem C5_one_record_per_matched_line lines :
  Forall2 (fun line d => parse_line line = Some d)
          (filter matched lines) (parse_lines lines)
  /\ length (parse_lines lines) = length (filter matched lines).
Proof.
  assert (Forall2 (fun line d => parse_line line = Some d)
            (filter matched lines) (parse_lines lines)) as H.
  { induction lines as [|l lines IH]; [constructor|].
    rewrite parse_lines_cons, filter_cons.
    destruct (parse_line l) as [d|] eqn:E.
    - rewrite decide_True by (apply parse_line_is_Some; by rewrite E).
      by constructor.
    - rewrite decide_False; [done|].
      unfold matched. rewrite <- parse_line_is_Some, E. by intros [? ?]. }
  split; [done|]. symmetry. by eapply Forall2_length.
Qed.

(** C6: a record comes from a line of the shape marker, space, nine
    fields free of commas and a text; its start_time and end_time are
    fields 1 and 2 as they stand in the line, and its dialog is the text
    with the whitespace on both sides removed and nothing else changed. *)
Theorem C6_fields_verbatim_dialog_stripped line d :
  is_line line = true ->
  parse_line line = Some d ->
  exists f0 f3 f4 f5 f6 f7 f8 text ws1 ws2,
    line = dialogue_line
             [f0; start_time d; end_time d; f3; f4; f5; f6; f7; f8] text
    /\ Forall comma_free
         [f0; start_time d; end_time d; f3; f4; f5; f6; f7; f8]
    /\ dialog d = strip text
    /\ text = ws1 ++ dialog d ++ ws2
    /\ forallb isspace ws1 = true /\ forallb isspace ws2 = true
    /\ (forall c, head (dialog d) = Some c -> isspace c = false)
    /\ (forall c, last (dialog d) = Some c -> isspace c = false).
Proof.
  intros Hl Hd.
  destruct (parse_line_inv _ _ Hd)
    as (f0 & f3 & f4 & f5 & f6 & f7 & f8 & text & E & H & Ed).
  assert (dialog d = strip text) as Ed'.
  { rewrite E in Hl. unfold dialogue_line in Hl. rewrite app_assoc in Hl.
    by rewrite (strip_line_rest _ _ Hl) in Ed. }
  destruct (strip_decompose text) as (ws1 & ws2 & Et & H1 & H2).
  exists f0, f3, f4, f5, f6, f7, f8, text, ws1, ws2.
  rewrite Ed'. repeat split; try done.
  - intros c. apply strip_head.
  - intros c. apply strip_last.
Qed.

Lemma C6_fields_verbatim_dialog_stripped_witness :
  let line := lit "Dialogue: 0, 0:00:01.00,0:00:02.00 ,Default,,0,0,0,,  {\i1}Hi  there{\i0} " ++ [NL] in
  let d := Dialogue (lit " 0:00:01.00") (lit "0:00:02.00 ") (lit "{\i1}Hi  there{\i0}") in
  is_line line = true
  /\ parse_line line = Some d
  /\ exists f0 f3 f4 f5 f6 f7 f8 text ws1 ws2,
       line = dialogue_line
                [f0; start_time d; end_time d; f3; f4; f5; f6; f7; f8] text
       /\ Forall comma_free
            [f0; start_time d; end_time d; f3; f4; f5; f6; f7; f8]
       /\ dialog d = strip text
       /\ text = ws1 ++ dialog d ++ ws2
       /\ forallb isspace ws1 = true /\ forallb isspace ws2 = true
       /\ (forall c, head (dialog d) = Some c -> isspace c = false)
       /\ (forall c, last (dialog d) = Some c -> isspace c = false).
Proof.
  intros line d.
  assert (is_line line = true) as H1 by reflexivity.
  assert (parse_line line = Some d) as H2 by (vm_compute; reflexivity).
  exact (conj H1 (conj H2 (C6_fields_verbatim_dialog_stripped line d H1 H2))).
Defined.

(** C7: a line that does not start with "Dialogue:" yields no record, and
    the lines around it yield the records they yield without it. *)
Theorem C7_prefix_filtering before line after :
  startswith line (lit "Dialogue:") = false ->
  parse_line line = None
  /\ parse_lines (before ++ line :: after) = parse_lines before ++ parse_lines after.
Proof.
  intros P.
  assert (parse_line line = None) as E by (unfold parse_line; by rewrite P).
  split; [done|]. by rewrite parse_lines_app, parse_lines_cons, E.
Qed.

Lemma C7_prefix_filtering_witness :
  let good := lit "Dialogue: 0,0:00:01.00,0:00:02.00,Default,,0,0,0,,Hi there" ++ [NL] in
  let line := lit " Dialogue: 0,0:00:01.00,0:00:02.00,Default,,0,0,0,,Hi there" ++ [NL] in
  startswith line (lit "Dialogue:") = false
  /\ parse_line line = None
  /\ parse_lines ([good] ++ line :: [good]) = parse_lines [good] ++ parse_lines [good].
Proof.
  intros good line.
  assert (startswith line (lit "Dialogue:") = false) as H1 by reflexivity.
  exact (conj H1 (C7_prefix_filtering [good] line [good] H1)).
Defined.

(** The marker is compared as it is: another case, or anything before
    it, and the line is skipped. *)
Example marker_is_case_sensitive :
  parse_line (lit "dialogue: 0,0:00:01.00,0:00:02.00,Default,,0,0,0,,Hi there") = None
  /\ parse_line (lit "DIALOGUE: 0,0:00:01.00,0:00:02.00,Default,,0,0,0,,Hi there") = None
  /\ parse_line (9 :: lit "Dialogue: 0,0:00:01.00,0:00:02.00,Default,,0,0,0,,Hi there") = None.
Proof. vm_compute. done. Qed.

(** C10: a line made of "Dialogue: ", nine fields free of commas each
    closed by its comma, and nothing more (or only the line terminator)
    yields a record, and its dialog is the empty string. *)
Theorem C10_empty_text_field f0 f1 f2 f3 f4 f5 f6 f7 f8 :
  Forall comma_free [f0; f1; f2; f3; f4; f5; f6; f7; f8] ->
  parse_line (dialogue_line [f0; f1; f2; f3; f4; f5; f6; f7; f8] [])
    = Some (Dialogue f1 f2 [])
  /\ parse_line (dialogue_line [f0; f1; f2; f3; f4; f5; f6; f7; f8] [NL])
    = Some (Dialogue f1 f2 []).
Proof. intros H. by rewrite !parse_dialogue_line. Qed.

Lemma C10_empty_text_field_witness :
  let f := lit "0" in
  let s := lit "0:00:01.00" in
  let e := lit "0:00:02.00" in
  let n := lit "Default" in
  Forall comma_free [f; s; e; n; []; f; f; f; []]
  /\ dialogue_line [f; s; e; n; []; f; f; f; []] []
     = lit "Dialogue: 0,0:00:01.00,0:00:02.00,Default,,0,0,0,,"
  /\ parse_line (dialogue_line [f; s; e; n; []; f; f; f; []] [])
     = Some (Dialogue s e [])
  /\ parse_line (dialogue_line [f; s; e; n; []; f; f; f; []] [NL])
     = Some (Dialogue s e []).
Proof.
  intros f s e n.
  assert (Forall comma_free [f; s; e; n; []; f; f; f; []]) as H
    by (repeat constructor).
  exact (conj H (conj eq_refl (C10_empty_text_field f s e n [] f f f [] H))).
Defined.

(** ** The JSON text *)

Lemma iterencode_dict_of d : iterencode 2 (dict_of d) 1 = object_text d.
Proof.
  unfold dict_of, object_text. cbn [iterencode map join concat].
  generalize (encode_basestring (start_time d)) (encode_basestring (end_time d))
    (encode_basestring (dialog d)).
  intros a b c. rewrite app_nil_r, <- !app_assoc.
  vm_compute. reflexivity.
Qed.

Lemma json_text_array ds : json_text ds = array_text (map object_text ds).
Proof.
  unfold json_text. destruct ds as [|d ds]; [done|].
  cbn [map iterencode]. rewrite iterencode_dict_of.
  rewrite map_map. erewrite (map_ext _ object_text) by apply iterencode_dict_of.
  reflexivity.
Qed.

Lemma array_text_cons o os :
  array_text (o :: os)
  = (lit "[" ++ NL :: lit "  ") ++ o
    ++ concat (map (fun y => (lit "," ++ NL :: lit "  ") ++ y) os)
    ++ NL :: lit "]".
Proof. unfold array_text, join. rewrite <- !app_assoc. reflexivity. Qed.

Lemma filter_concat {A} (P : A -> Prop) `{forall x, Decision (P x)} (l : list (list A)) :
  filter P (concat l) = concat (map (filter P) l).
Proof. induction l as [|x l IH]; simpl; [done|]. by rewrite filter_app, IH. Qed.

Lemma hex_digit_ascii n : n < 16 -> ~ non_ascii (hex_digit n).
Proof. unfold hex_digit, non_ascii. destruct (n <? 10) eqn:E; lia. Qed.

(** What is written literally: every character from the space on, except
    the quote and the backslash. *)
Lemma escape_char_literal c :
  32 <= c -> c <> QUOTE -> c <> BACKSLASH -> escape_char c = [c].
Proof.
  intros H32 Hq Hb. unfold escape_char.
  apply N.eqb_neq in Hq, Hb. rewrite Hq, Hb.
  replace (c =? 8) with false by (symmetry; apply N.eqb_neq; lia).
  replace (c =? 12) with false by (symmetry; apply N.eqb_neq; lia).
  replace (c =? 10) with false by (symmetry; apply N.eqb_neq; lia).
  replace (c =? 13) with false by (symmetry; apply N.eqb_neq; lia).
  replace (c =? 9) with false by (symmetry; apply N.eqb_neq; lia).
  replace (c <? 32) with false by (symmetry; apply N.ltb_ge; lia).
  done.
Qed.

Lemma escape_char_non_ascii c : non_ascii c -> escape_char c = [c].
Proof.
  unfold non_ascii, QUOTE, BACKSLASH. intros H.
  apply escape_char_literal; unfold QUOTE, BACKSLASH; lia.
Qed.

Lemma filter_escape_char c :
  filter non_ascii (escape_char c) = filter non_ascii [c].
Proof.
  destruct (decide (non_ascii c)) as [H|H].
  - by rewrite escape_char_non_ascii.
  - rewrite (filter_cons_False _ c) by done. simpl.
    unfold escape_char.
    do 7 (match goal with
          | |- context [if ?b then _ else _] =>
              destruct b; [vm_compute; reflexivity|]
          end).
    destruct (c <? 32) eqn:E.
    + apply N.ltb_lt in E. rewrite filter_app.
      rewrite !filter_cons_False, filter_nil.
      * vm_compute; reflexivity.
      * apply hex_digit_ascii. by apply N.mod_lt.
      * apply hex_digit_ascii. apply N.Div0.div_lt_upper_bound. lia.
    + by rewrite filter_cons_False.
Qed.

Lemma filter_encode_basestring s :
  filter non_ascii (encode_basestring s) = filter non_ascii s.
Proof.
  unfold encode_basestring. rewrite !filter_app, filter_concat, map_map.
  change (filter non_ascii [QUOTE]) with (@nil char). rewrite app_nil_r. simpl.
  induction s as [|c s IH]; simpl; [done|].
  rewrite IH, filter_escape_char. by rewrite <- filter_app.
Qed.

Lemma filter_object_text d :
  filter non_ascii (object_text d) =
  filter non_ascii (start_time d) ++ filter non_ascii (end_time d)
  ++ filter non_ascii (dialog d).
Proof.
  unfold object_text, quoted.
  repeat (rewrite filter_app || rewrite (filter_cons_False _ NL) by by vm_compute).
  rewrite !filter_encode_basestring.
  generalize (filter non_ascii (start_time d)) (filter non_ascii (end_time d))
    (filter non_ascii (dialog d)).
  intros a b c. transitivity (a ++ b ++ c ++ []).
  - vm_compute. reflexivity.
  - by rewrite app_nil_r.
Qed.

Lemma filter_array_text xs :
  filter non_ascii (array_text xs) = concat (map (filter non_ascii) xs).
Proof.
  destruct xs as [|x xs]; [done|]. unfold array_text, join.
  repeat (rewrite filter_app || rewrite (filter_cons_False _ NL) by by vm_compute).
  rewrite filter_concat, map_map.
  change (filter non_ascii (lit "[")) with (@nil char).
  change (filter non_ascii (lit "  ")) with (@nil char).
  change (filter non_ascii (lit "]")) with (@nil char).
  rewrite app_nil_r. cbn [app map concat]. reflexivity.
Qed.

(** ** Reading the document back *)

Lemma hex_value_hex_digit n : n < 16 -> hex_value (hex_digit n) = Some n.
Proof.
  intros H. unfold hex_value, hex_digit. destruct (n <? 10) eqn:E.
  - apply N.ltb_lt in E.
    replace ((48 <=? 48 + n) && (48 + n <=? 57)) with true
      by (symmetry; apply andb_true_iff; split; apply N.leb_le; lia).
    f_equal. lia.
  - apply N.ltb_ge in E.
    replace ((48 <=? 87 + n) && (87 + n <=? 57)) with false
      by (symmetry; apply andb_false_iff; right; apply N.leb_gt; lia).
    replace ((97 <=? 87 + n) && (87 + n <=? 102)) with true
      by (symmetry; apply andb_true_iff; split; apply N.leb_le; lia).
    f_equal. lia.
Qed.

Lemma json_char_u h3 h4 rest :
  json_char (BACKSLASH :: 117 :: 48 :: 48 :: h3 :: h4 :: rest)
  = c ← hex_value h3; d ← hex_value h4; Some (c * 16 + d, rest).
Proof. reflexivity. Qed.

(** The reader reads what [escape_char] writes as the character it was
    written for. *)
Lemma json_char_escape_char c rest :
  json_char (escape_char c ++ rest) = Some (c, rest).
Proof.
  unfold escape_char.
  do 7 (match goal with
        | |- context [if ?b then _ else _] =>
            let E := fresh "E" in
            destruct b eqn:E; [apply N.eqb_eq in E; by subst c|]
        end).
  destruct (c <? 32) eqn:E32.
  - apply N.ltb_lt in E32.
    change (lit "\u00" ++ ?l) with (BACKSLASH :: 117 :: 48 :: 48 :: l).
    cbn [app]. rewrite json_char_u.
    rewrite !hex_value_hex_digit
      by (try apply N.mod_lt; try apply N.Div0.div_lt_upper_bound; lia).
    simpl. do 2 f_equal. rewrite (N.div_mod c 16) at 3 by lia. lia.
  - cbn [app json_char]. by rewrite E0, E, E32.
Qed.

Lemma escape_char_head c :
  exists h tl, escape_char c = h :: tl /\ (h =? QUOTE) = false.
Proof.
  unfold escape_char.
  do 8 (match goal with
        | |- context [if ?b then _ else _] =>
            destruct b eqn:?; [by eexists _, _|]
        end).
  by eexists _, _.
Qed.

Lemma json_string_body_escape n c rest :
  json_string_body (S n) (escape_char c ++ rest)
  = '(s, r) ← json_string_body n rest; Some (c :: s, r).
Proof.
  pose proof (json_char_escape_char c rest) as Hc.
  destruct (escape_char_head c) as (h & tl & E & Hh). rewrite E in *.
  cbn [app json_string_body] in *. by rewrite Hh, Hc.
Qed.

Lemma json_string_body_encode fuel s rest :
  (length s < fuel)%nat ->
  json_string_body fuel (concat (map escape_char s) ++ QUOTE :: rest)
  = Some (s, rest).
Proof.
  revert fuel. induction s as [|c s IH]; intros [|n] H; simpl in H; try lia.
  - done.
  - cbn [map concat]. rewrite <- app_assoc, json_string_body_escape.
    by rewrite IH by lia.
Qed.

Lemma length_escaped s : (length s <= length (concat (map escape_char s)))%nat.
Proof.
  induction s as [|c s IH]; simpl; [done|]. rewrite length_app.
  destruct (escape_char_head c) as (h & tl & -> & _). simpl. lia.
Qed.

(** A string as [encode_basestring] writes it, after its opening quote. *)
Lemma json_string_body_encoded s rest :
  let t := concat (map escape_char s) ++ QUOTE :: rest in
  json_string_body (length t) t = Some (s, rest).
Proof.
  intros t. apply json_string_body_encode. subst t.
  rewrite length_app. pose proof (length_escaped s). simpl. lia.
Qed.

Lemma drop_while_ws w c t :
  forallb is_json_ws w = true -> is_json_ws c = false ->
  drop_while is_json_ws (w ++ c :: t) = c :: t.
Proof.
  intros Hw Hc. rewrite drop_while_app_all by done. simpl. by rewrite Hc.
Qed.

Lemma encode_basestring_cons s rest :
  encode_basestring s ++ rest
  = QUOTE :: concat (map escape_char s) ++ QUOTE :: rest.
Proof. unfold encode_basestring. by rewrite <- !app_assoc. Qed.

Lemma json_value_string n w s rest :
  forallb is_json_ws w = true ->
  json_value (S n) (w ++ encode_basestring s ++ rest) = Some (JStr s, rest).
Proof.
  intros Hw. rewrite encode_basestring_cons. cbn [json_value].
  rewrite drop_while_ws by done.
  change (QUOTE =? QUOTE) with true. cbv iota.
  by rewrite json_string_body_encoded.
Qed.

Lemma join_cons_cons sep (x y : list char) l :
  join sep (x :: y :: l) = x ++ sep ++ join sep (y :: l).
Proof. unfold join. cbn [map concat]. by rewrite <- !app_assoc. Qed.

(** The members of an object whose values are strings, as [iterencode]
    lays them out: [w1] before each member, [w2] before the closing
    brace. *)
Lemma json_members_strings (items : list (list char * list char)) fuel w1 w2 rest :
  items <> [] ->
  (length items < fuel)%nat ->
  forallb is_json_ws w1 = true ->
  forallb is_json_ws w2 = true ->
  json_members fuel
    (w1 ++ join (lit "," ++ w1)
             (map (fun kv => encode_basestring kv.1 ++ lit ": "
                             ++ encode_basestring kv.2) items)
        ++ w2 ++ 125 :: rest)
  = Some (map (fun kv => (kv.1, JStr kv.2)) items, rest).
Proof.
  intros Hne Hf H1 H2. revert fuel Hf.
  induction items as [|[k v] items IH]; [done|]. clear Hne.
  intros [|[|n]] Hf; simpl in Hf; try lia.
  assert (forall X,
    json_members (S (S n))
      (w1 ++ encode_basestring k ++ lit ": " ++ encode_basestring v ++ X)
    = match drop_while is_json_ws X with
      | [] => None
      | c3 :: r4 =>
          if c3 =? 44 then
            '(ms, r5) ← json_members (S n) r4; Some ((k, JStr v) :: ms, r5)
          else if c3 =? 125 then Some ([(k, JStr v)], r4)
          else None
      end) as Step.
  { intros X. rewrite encode_basestring_cons.
    cbn [json_members]. rewrite drop_while_ws by done.
    change (QUOTE =? QUOTE) with true. cbv iota.
    rewrite json_string_body_encoded. cbn [mbind option_bind].
    change (lit ": " ++ ?Y) with (58 :: [32] ++ Y).
    change (drop_while is_json_ws (58 :: ?Y)) with (58 :: Y).
    change (58 =? 58) with true. cbv iota.
    rewrite (json_value_string n [32]) by done. done. }
  destruct items as [|kv' items].
  - cbn [map join concat fst snd]. rewrite app_nil_r, <- !app_assoc, Step.
    rewrite drop_while_ws by done. done.
  - cbn [map]. rewrite join_cons_cons. cbn [map fst snd] in *.
    rewrite <- !app_assoc. rewrite Step.
    change (lit "," ++ ?Y) with (44 :: Y).
    change (drop_while is_json_ws (44 :: ?Y)) with (44 :: Y).
    change (44 =? 44) with true. cbv iota.
    rewrite IH by (done || (simpl in *; lia)).
    done.
Qed.

Lemma json_value_object_open n w T Y :
  forallb is_json_ws w = true ->
  drop_while is_json_ws T = QUOTE :: Y ->
  json_value (S n) (w ++ 123 :: T)
  = '(ms, r) ← json_members n T; Some (JDict ms, r).
Proof.
  intros Hw E. cbn [json_value]. rewrite drop_while_ws by done.
  change (123 =? QUOTE) with false. change (123 =? 91) with false.
  change (123 =? 123) with true. cbv iota. rewrite E.
  change (QUOTE =? 125) with false. done.
Qed.

Lemma json_value_array_open n T Y :
  drop_while is_json_ws T = 123 :: Y ->
  json_value (S n) (91 :: T)
  = '(vs, r) ← json_elements n T; Some (JList vs, r).
Proof.
  intros E. cbn [json_value].
  change (drop_while is_json_ws (91 :: T)) with (91 :: T). cbv iota.
  change (91 =? QUOTE) with false. change (91 =? 91) with true. cbv iota.
  rewrite E. change (123 =? 93) with false. done.
Qed.

(** The text of the object of a record, member by member. *)
Lemma object_text_members d rest :
  object_text d ++ rest
  = 123 :: newline_indent 2 2
      ++ join (lit "," ++ newline_indent 2 2)
           (map (fun kv : list char * list char =>
                   encode_basestring kv.1 ++ lit ": " ++ encode_basestring kv.2)
              [ (lit "start_time", start_time d);
                (lit "end_time", end_time d);
                (lit "dialog", dialog d) ])
      ++ newline_indent 2 1 ++ 125 :: rest.
Proof.
  rewrite <- iterencode_dict_of. unfold dict_of.
  cbn [iterencode map fst snd]. rewrite <- !app_assoc. reflexivity.
Qed.

(** The reader reads the text of the object of a record as the object
    the specification asks for. *)
Lemma json_value_object n w d rest :
  (4 <= n)%nat ->
  forallb is_json_ws w = true ->
  json_value (S n) (w ++ object_text d ++ rest) = Some (record_object d, rest).
Proof.
  intros Hn Hw. rewrite object_text_members.
  erewrite json_value_object_open; [|done|].
  - rewrite json_members_strings by (done || (simpl; lia)). done.
  - cbn [map join fst snd]. rewrite <- !app_assoc, encode_basestring_cons.
    by apply drop_while_ws.
Qed.

Lemma json_elements_objects ds fuel rest :
  ds <> [] ->
  (length ds + 5 <= fuel)%nat ->
  json_elements fuel
    (newline_indent 2 1
       ++ join (lit "," ++ newline_indent 2 1) (map object_text ds)
       ++ newline_indent 2 0 ++ 93 :: rest)
  = Some (map record_object ds, rest).
Proof.
  intros Hne Hf. revert fuel Hf.
  induction ds as [|d ds IH]; [done|]. clear Hne.
  intros [|n] Hf; simpl in Hf; [lia|].
  destruct ds as [|d' ds].
  - cbn [map join concat]. rewrite app_nil_r, <- ?app_assoc.
    cbn [json_elements].
    destruct n as [|n]; [lia|].
    rewrite json_value_object by (done || lia). done.
  - cbn [map]. rewrite join_cons_cons. cbn [map] in IH.
    rewrite <- !app_assoc. cbn [json_elements].
    destruct n as [|n]; [lia|].
    rewrite json_value_object by (done || (simpl in Hf; lia)).
    cbn [mbind option_bind].
    change (lit "," ++ ?Y) with (44 :: Y).
    change (drop_while is_json_ws (44 :: ?Y)) with (44 :: Y).
    change (44 =? 44) with true. cbv iota.
    rewrite IH by (done || (simpl in *; lia)). done.
Qed.

Lemma length_json_text ds :
  ds <> [] -> (length ds + 6 <= length (json_text ds))%nat.
Proof.
  destruct ds as [|d ds]; [done|]. intros _.
  rewrite json_text_array. cbn [map]. rewrite array_text_cons, !length_app.
  assert (1 <= length (object_text d))%nat as Ho
    by (unfold object_text; rewrite length_app;
        change (length (lit "{")) with 1%nat; lia).
  assert (length ds
          <= length (concat (map (fun y => (lit "," ++ NL :: lit "  ") ++ y)
                               (map object_text ds))))%nat as Hc.
  { clear. induction ds as [|d ds IH]; cbn [map concat length]; [lia|].
    rewrite !length_app.
    change (length (lit ",")) with 1%nat. lia. }
  change (length (lit "[")) with 1%nat.
  change (length (NL :: lit "  ")) with 3%nat.
  change (length (NL :: lit "]")) with 2%nat. cbn [length]. lia.
Qed.

(** The document read back: the array of the objects of the records. *)
Lemma json_text_cons d ds :
  json_text (d :: ds)
  = 91 :: newline_indent 2 1
      ++ join (lit "," ++ newline_indent 2 1) (map object_text (d :: ds))
      ++ newline_indent 2 0 ++ [93].
Proof.
  rewrite json_text_array. cbn [map]. rewrite array_text_cons.
  unfold join. rewrite <- !app_assoc. reflexivity.
Qed.

Lemma json_loads_json_text ds :
  json_loads (json_text ds) = Some (JList (map record_object ds)).
Proof.
  destruct ds as [|d ds]; [done|].
  unfold json_loads.
  pose proof (length_json_text (d :: ds) ltac:(done)) as Hl.
  remember (length (json_text (d :: ds))) as fuel eqn:Ef. clear Ef.
  destruct fuel as [|n]; [simpl in Hl; lia|]. simpl in Hl.
  rewrite json_text_cons.
  erewrite json_value_array_open.
  - rewrite (json_elements_objects (d :: ds)) by (done || (simpl; lia)).
    done.
  - cbn [map]. unfold join. rewrite <- !app_assoc, object_text_members.
    by apply drop_while_ws.
Qed.

(** C8: the text written for a list of records is a JSON document: read
    by the grammar of JSON it is an array with one object per record, in
    the order of the records, and each object has exactly the keys
    start_time, end_time, dialog, in that order, each with the string of
    the record as its value.  A character outside ASCII is written as
    itself, never as an escape: the characters outside ASCII of the
    document are those of the values, in order. *)
Theorem C8_json_array_of_records ds :
  json_loads (json_text ds)
  = Some (JList (map (fun d =>
                        JDict [ (lit "start_time", JStr (start_time d));
                                (lit "end_time", JStr (end_time d));
                                (lit "dialog", JStr (dialog d)) ]) ds))
  /\ json_text ds = array_text (map object_text ds)
  /\ (forall c, non_ascii c -> escape_char c = [c])
  /\ (forall s, Forall non_ascii s -> encode_basestring s = quoted s)
  /\ filter non_ascii (json_text ds) =
     concat (map (fun d => filter non_ascii (start_time d)
                           ++ filter non_ascii (end_time d)
                           ++ filter non_ascii (dialog d)) ds).
Proof.
  split; [apply json_loads_json_text|].
  split; [apply json_text_array|]. split; [apply escape_char_non_ascii|]. split.
  - intros s Hs. unfold encode_basestring, quoted. do 2 f_equal.
    induction Hs as [|c s Hc Hs IH]; simpl; [done|].
    by rewrite IH, escape_char_non_ascii.
  - rewrite json_text_array, filter_array_text, map_map.
    f_equal. apply map_ext. intros d. apply filter_object_text.
Qed.

(** A value with a quote, a backslash, a newline and characters outside
    ASCII: the document has the escapes, and reads back as the value. *)
Example json_text_escapes :
  let d := Dialogue (lit "0:00:01.00") (lit "0:00:02.00")
             (lit "say " ++ [QUOTE] ++ lit "hi" ++ [QUOTE; BACKSLASH; NL; 233; 12354]) in
  encode_basestring (dialog d)
  = [QUOTE] ++ lit "say \" ++ [QUOTE] ++ lit "hi\" ++ [QUOTE] ++ lit "\\\n"
    ++ [233; 12354; QUOTE]
  /\ json_loads (json_text [d]) = Some (JList [record_object d]).
Proof. vm_compute. done. Qed.

(** The document of the example of the specification. *)
Example json_text_example :
  json_text [Dialogue (lit "0:00:01.00") (lit "0:00:03.50") (lit "Hello, world!")]
  = lit "[" ++ NL
    :: lit "  {" ++ NL
    :: lit "    " ++ quoted (lit "start_time") ++ lit ": " ++ quoted (lit "0:00:01.00") ++ lit "," ++ NL
    :: lit "    " ++ quoted (lit "end_time") ++ lit ": " ++ quoted (lit "0:00:03.50") ++ lit "," ++ NL
    :: lit "    " ++ quoted (lit "dialog") ++ lit ": " ++ quoted (lit "Hello, world!") ++ NL
    :: lit "  }" ++ NL
    :: lit "]".
Proof. vm_compute. reflexivity. Qed.

(** ** The command line *)

Section CommandLineProperties.
Context {fs : Type} (os : file_system fs).
Implicit Types (st : fs * list str) (input : str) (output : option str).



Lemma exists_true path st :
  path_exists os st.1 path = true -> exists_ os path st = (inr true, st).
Proof.
  unfold path_exists, exists_. by destruct (path_stat os st.1 path).
Qed.


(** Past the two checks, [main] is its [try] statement. *)
Lemma main_try input output st :
  path_exists os st.1 (Path input) = true ->
  lower (path_suffix (Path input)) = lit ".ass" ->
  main os input output st =
  match read_text os st.1 (Path input) with
  | inl e =>
      if is_Exception e
      then (inr tt, (st.1, st.2 ++ [error_message e]))
      else (inl e, st)
  | inr content =>
      let dialogues := parse_ass_text content in
      let out := output_path (Path input) output in
      match write_text os st.1 out (json_text dialogues) with
      | (Some e, m') =>
          if is_Exception e
          then (inr tt, (m', st.2 ++ [error_message e]))
          else (inl e, (m', st.2))
      | (None, m') =>
          (inr tt,
           (m', (st.2 ++ [lit "Successfully converted '" ++ Path input
                          ++ lit "' to '" ++ out ++ lit "'"])
                ++ [lit "Extracted " ++ str_of_nat (length dialogues)
                    ++ lit " dialogue lines"]))
      end
  end.
Proof.
  intros H1 H2. unfold main, str_eqb. unfold bind at 1.
  rewrite exists_true by done. simpl.
  rewrite bool_decide_eq_true_2 by done. simpl.
  unfold try_except_Exception, bind, parse_ass_file, write_json, print.
  destruct st as [m out]; simpl.
  destruct (read_text os m (Path input)) as [e|content]; simpl.
  - by destruct (is_Exception e).
  - destruct (write_text os m _ _) as [[e|] m']; simpl; [|done].
    by destruct (is_Exception e).
Qed.
End CommandLineProperties.



(** C9 fails on the code: the existence check of [main] stands before
    the [try] statement, and [exists()] raises again every [OSError] whose
    [errno] is not one of the four it ignores.  For an input path that
    does not exist and whose name is longer than a file name may be,
    [stat] fails with errno 36; [main] then prints nothing and ends with
    the [OSError], where the claim has it print the not-found message and
    return. *)
Theorem C9_exists_raises_before_try :
  let input := replicate 300 97 ++ lit ".ass" in
  sample_files !! Path input = None
  /\ ignore_error 36 = false
  /\ main simple_fs input None (sample_files, [])
     = (inl (Exn OSError
               (lit "[Errno 36] File name too long: '" ++ input ++ lit "'")),
        (sample_files, [])).
Proof. vm_compute. done. Qed.



(** The end-to-end scenario of the specification: a comment line, a valid
    dialogue line and a malformed one give an array of one element, and
    the two lines of the success report. *)
Example main_end_to_end :
  let r := main simple_fs (lit "subs.ass") None (sample_files, []) in
  r.1 = inr tt
  /\ r.2.1 !! lit "subs.json"
     = Some (Text (json_text [Dialogue (lit "0:00:01.00") (lit "0:00:02.00")
                                (lit "Hi there")]))
  /\ r.2.2 = [lit "Successfully converted 'subs.ass' to 'subs.json'";
              lit "Extracted 1 dialogue lines"].
Proof. vm_compute. done. Qed.

(** * Further properties of the code *)

(** ** The lines of a text *)

Lemma count_char_zero_forallb x s :
  count_char x s = O <-> forallb (fun c => negb (c =? x)) s = true.
Proof.
  induction s as [|c s IH]; simpl; [done|].
  destruct (c =? x); simpl; [split; done|apply IH].
Qed.

Lemma universal_newlines_no_CR s : count_char CR (universal_newlines s) = O.
Proof.
  enough (count_char CR (universal_newlines s) = O
          /\ count_char CR (universal_newlines (tail s)) = O) by tauto.
  induction s as [|c s [IH1 IH2]]; simpl; [done|]. split; [|done].
  destruct (c =? CR) eqn:E; simpl; [|by rewrite E].
  destruct s as [|c' s]; [done|]. simpl in IH2. by destruct (c' =? NL).
Qed.

Lemma universal_newlines_app b rest :
  count_char CR b = O ->
  universal_newlines (b ++ rest) = b ++ universal_newlines rest.
Proof.
  induction b as [|c b IH]; simpl; [done|].
  destruct (c =? CR); [done|]. intros H. by rewrite IH.
Qed.

Lemma file_lines_concat s : concat (file_lines s) = s.
Proof.
  induction s as [|c s IH]; simpl; [done|].
  destruct (c =? NL) eqn:E; simpl; [by rewrite IH|].
  destruct (file_lines s) as [|l ls]; simpl in *; by rewrite <- IH.
Qed.

Lemma file_lines_app_line b rest :
  count_char NL b = O ->
  file_lines (b ++ NL :: rest) = (b ++ [NL]) :: file_lines rest.
Proof.
  induction b as [|c b IH]; simpl; [done|].
  destruct (c =? NL); [done|]. intros H. by rewrite IH.
Qed.

Lemma file_lines_last b :
  count_char NL b = O -> file_lines b = match b with [] => [] | _ => [b] end.
Proof.
  induction b as [|c b IH]; simpl; [done|].
  destruct (c =? NL); [done|]. intros H. rewrite IH by done. by destruct b.
Qed.

(** X5: the text that [parse_ass_file] iterates over has no carriage
    return left, and its lines, put end to end, are that text: each line
    is not empty and ends at its first newline, so no character is lost
    or read twice. *)
Theorem X5_lines_partition_the_text content :
  let text := universal_newlines content in
  count_char CR text = O
  /\ concat (file_lines text) = text
  /\ Forall (fun l => is_line l = true) (file_lines text).
Proof.
  split; [apply universal_newlines_no_CR|].
  split; [apply file_lines_concat|apply file_lines_is_line].
Qed.

(** ** The line terminator *)

Lemma dialogue_line_snoc fs text x :
  dialogue_line fs text ++ x = dialogue_line fs (text ++ x).
Proof. unfold dialogue_line. by rewrite <- !app_assoc. Qed.

Lemma count_char_dialogue_line_text x fs text :
  count_char x (dialogue_line fs text) = O -> count_char x text = O.
Proof. unfold dialogue_line. rewrite !count_char_app. lia. Qed.

(** The terminator of a line plays no part in its record. *)
Lemma parse_line_newline b :
  count_char NL b = O -> parse_line (b ++ [NL]) = parse_line b.
Proof.
  intros Hb. destruct (parse_line b) as [d|] eqn:E.
  - destruct (parse_line_inv _ _ E)
      as (f0 & f3 & f4 & f5 & f6 & f7 & f8 & text & -> & H & Ed).
    rewrite dialogue_line_snoc, parse_dialogue_line by done.
    apply count_char_dialogue_line_text in Hb.
    rewrite take_while_notnl_snoc by done.
    rewrite take_while_notnl_free in Ed by done.
    destruct d; simpl in *. by rewrite Ed.
  - apply eq_None_not_Some. intros HS.
    apply parse_line_is_Some, re_match_is_Some in HS as [P Hn].
    assert (is_Some (parse_line b)) as [? ?]; [|congruence].
    apply parse_line_is_Some, re_match_is_Some.
    apply startswith_spec in P as [t Et].
    destruct (decide (t = [])) as [->|Ht].
    { rewrite app_nil_r in Et. apply (f_equal (count_char NL)) in Et.
      rewrite count_char_app, Hb in Et. by vm_compute in Et. }
    destruct (exists_last Ht) as (t' & c & ->).
    rewrite app_assoc in Et. apply app_inj_tail in Et as [-> <-].
    split; [apply startswith_spec; by eexists|].
    rewrite <- app_assoc in Hn.
    change (drop 9 (lit "Dialogue: " ++ ?x)) with (32 :: x) in *.
    change (count_char COMMA (32 :: ?x)) with (count_char COMMA x) in *.
    rewrite count_char_app in Hn. simpl in Hn. lia.
Qed.

(** X4: a line gives the same record, or none, with or without its
    terminating newline: the last line of a file that does not end with a
    newline is treated like the others. *)
Theorem X4_terminator_plays_no_part b :
  count_char NL b = O -> parse_line (b ++ [NL]) = parse_line b.
Proof. apply parse_line_newline. Qed.

Lemma X4_terminator_plays_no_part_witness :
  let b := lit "Dialogue: 0,0:00:01.00,0:00:02.00,Default,,0,0,0,,Hi there" in
  count_char NL b = O
  /\ parse_line (b ++ [NL]) = parse_line b
  /\ parse_line b
     = Some (Dialogue (lit "0:00:01.00") (lit "0:00:02.00") (lit "Hi there")).
Proof.
  intros b.
  exact (conj eq_refl (conj (X4_terminator_plays_no_part b eq_refl) eq_refl)).
Defined.

Lemma universal_newlines_terminated l rest :
  count_char CR l.1 = O ->
  universal_newlines (terminated l ++ rest) = l.1 ++ NL :: universal_newlines rest.
Proof.
  intros H. unfold terminated. rewrite <- app_assoc.
  rewrite universal_newlines_app by done. by destruct l.2.
Qed.

(** X3: a text whose lines end with "\n" or "\r\n", the last one possibly
    with no terminator, gives the records of its line bodies, in order,
    each parsed by itself: the kind of line ending makes no difference
    and never reaches a record. *)
Theorem X3_line_endings_make_no_difference (ls : list (list char * bool)) last :
  Forall (fun l => count_char CR l.1 = O /\ count_char NL l.1 = O) ls ->
  count_char CR last = O ->
  count_char NL last = O ->
  parse_ass_text (concat (map terminated ls) ++ last)
  = omap parse_line (map fst ls ++ [last]).
Proof.
  intros Hls Hc Hn. unfold parse_ass_text. rewrite parse_lines_omap.
  induction Hls as [|l ls [Hl1 Hl2] Hls IH]; cbn [map concat app].
  - rewrite <- (app_nil_r last) at 1.
    rewrite universal_newlines_app by done. simpl. rewrite app_nil_r.
    rewrite file_lines_last by done. destruct last; [done|]. reflexivity.
  - rewrite <- app_assoc, universal_newlines_terminated by done.
    rewrite file_lines_app_line by done.
    rewrite <- !parse_lines_omap, !parse_lines_cons, parse_line_newline by done.
    by rewrite !parse_lines_omap, IH.
Qed.

Lemma X3_line_endings_make_no_difference_witness :
  let good := lit "Dialogue: 0,0:00:01.00,0:00:02.00,Default,,0,0,0,,Hi there" in
  let ls := [(lit "[Events]", true); (good, false); (good, true)] in
  let last := lit "Dialogue: 0,0:00:03.00,0:00:04.00,Default,,0,0,0,,Bye" in
  Forall (fun l => count_char CR l.1 = O /\ count_char NL l.1 = O) ls
  /\ count_char CR last = O
  /\ count_char NL last = O
  /\ parse_ass_text (concat (map terminated ls) ++ last)
     = omap parse_line (map fst ls ++ [last]).
Proof.
  intros good ls last.
  assert (Forall (fun l => count_char CR l.1 = O /\ count_char NL l.1 = O) ls)
    as H by (repeat constructor).
  exact (conj H (conj eq_refl (conj eq_refl
    (X3_line_endings_make_no_difference ls last H eq_refl eq_refl)))).
Defined.

(** ** Which lines give a record, and what the records hold *)

(** X1: a line gives a record exactly when it begins with "Dialogue: "
    (the marker and one space) and has at least nine commas after the
    marker; nothing else about the line matters. *)
Theorem X1_record_iff_space_and_nine_commas line :
  is_Some (parse_line line) <->
  startswith line (lit "Dialogue: ") = true
  /\ (9 <= count_char COMMA (drop 9 line))%nat.
Proof. rewrite parse_line_is_Some. apply re_match_is_Some. Qed.

Lemma count_char_concat_zero x (ls : list (list char)) l :
  count_char x (concat ls) = O -> l ∈ ls -> count_char x l = O.
Proof.
  intros H Hl. induction Hl as [l ls|l l' ls Hl IH]; simpl in H;
    rewrite count_char_app in H; [lia|apply IH; lia].
Qed.

Lemma count_char_take_while x p s :
  count_char x s = O -> count_char x (take_while p s) = O.
Proof.
  intros H. rewrite <- (take_while_drop_while p s), count_char_app in H. lia.
Qed.

Lemma count_char_strip x s : count_char x s = O -> count_char x (strip s) = O.
Proof.
  intros H. destruct (strip_decompose s) as (ws1 & ws2 & E & _ & _).
  rewrite E, !count_char_app in H. lia.
Qed.

Lemma drop_while_head_false p s c t :
  s = c :: t -> p c = false -> drop_while p s = s.
Proof. intros -> H. simpl. by rewrite H. Qed.

Lemma strip_idempotent s : strip (strip s) = strip s.
Proof.
  assert (lstrip (strip s) = strip s) as E1.
  { destruct (strip s) as [|c t] eqn:E; [done|].
    apply (drop_while_head_false _ _ c t); [done|].
    apply (strip_head s). by rewrite E. }
  unfold strip at 1. rewrite E1. unfold rstrip.
  destruct (reverse (strip s)) as [|c t] eqn:E.
  - simpl. by rewrite <- (reverse_involutive (strip s)), E.
  - rewrite (drop_while_head_false _ _ c t); [|done|].
    + by rewrite <- E, reverse_involutive.
    + apply (strip_last s). by rewrite <- head_reverse, E.
Qed.

Lemma count_char_cons x c s :
  count_char x (c :: s) = Nat.add (if c =? x then 1%nat else O) (count_char x s).
Proof. simpl. by destruct (c =? x). Qed.

Lemma is_line_fields_no_NL f0 f1 f2 fs text :
  is_line (dialogue_line (f0 :: f1 :: f2 :: fs) text) = true ->
  count_char NL f1 = O /\ count_char NL f2 = O.
Proof.
  unfold is_line, dialogue_line. rewrite !with_commas_cons.
  destruct (lit "Dialogue: " ++ _) eqn:E; [done|]. rewrite <- E. clear E.
  replace (lit "Dialogue: " ++ f0 ++ COMMA :: f1 ++ COMMA :: f2
             ++ COMMA :: with_commas fs ++ text)
    with ((lit "Dialogue: " ++ f0 ++ COMMA :: f1 ++ COMMA :: f2)
            ++ COMMA :: with_commas fs ++ text)
    by (by rewrite <- !app_assoc; simpl; rewrite <- !app_assoc).
  rewrite removelast_app by done. rewrite forallb_app.
  intros [H _]%andb_true_iff.
  apply (count_char_zero_forallb NL) in H.
  repeat (rewrite count_char_app in H || rewrite count_char_cons in H). lia.
Qed.

(** X2: in every record extracted from a file, start_time and end_time
    hold no comma, none of the three fields holds a newline or a carriage
    return, and dialog is already stripped. *)
Theorem X2_what_records_hold content d :
  d ∈ parse_ass_text content ->
  count_char COMMA (start_time d) = O
  /\ count_char COMMA (end_time d) = O
  /\ (forall f, f ∈ [start_time d; end_time d; dialog d] ->
        count_char NL f = O /\ count_char CR f = O)
  /\ strip (dialog d) = dialog d.
Proof.
  unfold parse_ass_text. rewrite parse_lines_omap.
  intros (line & Hl & Hd)%list_elem_of_omap.
  assert (is_line line = true) as Hline by by eapply file_line_is_line.
  assert (count_char CR line = O) as Hcr.
  { eapply count_char_concat_zero; [|done].
    rewrite file_lines_concat. apply universal_newlines_no_CR. }
  destruct (parse_line_inv _ _ Hd)
    as (f0 & f3 & f4 & f5 & f6 & f7 & f8 & text & -> & H & Ed).
  destruct (is_line_fields_no_NL _ _ _ _ _ Hline) as [N1 N2].
  assert (count_char CR (start_time d) = O /\ count_char CR (end_time d) = O
          /\ count_char CR text = O) as (C1 & C2 & C3).
  { unfold dialogue_line in Hcr. rewrite !with_commas_cons in Hcr.
    repeat (rewrite count_char_app in Hcr || rewrite count_char_cons in Hcr).
    lia. }
  apply Forall_cons_1 in H as [_ H]. apply Forall_cons_1 in H as [K1 H].
  apply Forall_cons_1 in H as [K2 _].
  split; [done|]. split; [done|]. split.
  - intros f Hf. rewrite !elem_of_cons, elem_of_nil in Hf.
    destruct Hf as [->|[->|[->|[]]]]; [done|done|].
    rewrite Ed. split.
    + apply count_char_strip. apply (count_char_zero_forallb NL).
      apply forallb_take_while.
    + by apply count_char_strip, count_char_take_while.
  - rewrite Ed. apply strip_idempotent.
Qed.

Lemma X2_what_records_hold_witness :
  let content :=
    lit "Dialogue: 0,0:00:01.00,0:00:02.00,Default,,0,0,0,, Wait, what? " ++ [CR; NL] in
  let d := Dialogue (lit "0:00:01.00") (lit "0:00:02.00") (lit "Wait, what?") in
  d ∈ parse_ass_text content
  /\ count_char COMMA (start_time d) = O
  /\ count_char COMMA (end_time d) = O
  /\ (forall f, f ∈ [start_time d; end_time d; dialog d] ->
        count_char NL f = O /\ count_char CR f = O)
  /\ strip (dialog d) = dialog d.
Proof.
  intros content d.
  assert (d ∈ parse_ass_text content) as H by (vm_compute; apply list_elem_of_here).
  exact (conj H (X2_what_records_hold content d H)).
Defined.

(** ** The written document *)

Lemma Forall_printable_check (l : list char) :
  forallb (N.leb 32) l = true -> Forall (fun c => 32 <= c) l.
Proof.
  induction l as [|c l IH]; simpl; [constructor|].
  intros [Hc Hl]%andb_true_iff. constructor; [by apply N.leb_le|by apply IH].
Qed.

Lemma hex_digit_printable n : 32 <= hex_digit n.
Proof. unfold hex_digit. destruct (n <? 10); lia. Qed.

Lemma escape_char_printable c : Forall (fun x => 32 <= x) (escape_char c).
Proof.
  unfold escape_char.
  do 7 (match goal with
        | |- context [if ?b then _ else _] =>
            destruct b; [by apply Forall_printable_check|]
        end).
  destruct (c <? 32) eqn:E.
  - apply Forall_app_2; [by apply Forall_printable_check|].
    repeat constructor; apply hex_digit_printable.
  - apply N.ltb_ge in E. by repeat constructor.
Qed.

Lemma encode_basestring_printable s :
  Forall (fun x => 32 <= x) (encode_basestring s).
Proof.
  unfold encode_basestring.
  apply Forall_app_2; [by apply Forall_printable_check|].
  apply Forall_app_2; [|by apply Forall_printable_check].
  induction s as [|c s IH]; simpl; [constructor|].
  apply Forall_app_2; [apply escape_char_printable|done].
Qed.

(** X6: the document holds no character below U+0020 but the newlines
    of its layout: inside a string every such character of a value, a
    newline or a tab included, is written as an escape, so no value
    breaks a line of the document.  Every character from U+0020 on other
    than the quote and the backslash is written as itself: U+007F and the
    control characters U+0080 to U+009F are not escaped. *)
Theorem X6_no_character_below_space ds :
  (forall s, Forall (fun c => 32 <= c) (encode_basestring s))
  /\ Forall (fun c => 32 <= c \/ c = NL) (json_text ds)
  /\ (forall c, 32 <= c -> c <> QUOTE -> c <> BACKSLASH -> escape_char c = [c])
  /\ escape_char 127 = [127]
  /\ escape_char 133 = [133].
Proof.
  split; [apply encode_basestring_printable|].
  enough (Forall (fun c => 32 <= c \/ c = NL) (json_text ds))
    by (split; [done|]; split; [apply escape_char_literal|done]).
  assert (forall l : list char,
            Forall (fun c => 32 <= c) l -> Forall (fun c => 32 <= c \/ c = NL) l)
    as Hweak by (intros l H; eapply Forall_impl; [exact H|simpl; tauto]).
  assert (forall d, Forall (fun c => 32 <= c \/ c = NL) (object_text d)) as Hobj.
  { intros d. unfold object_text, quoted.
    repeat first
      [ apply Hweak, encode_basestring_printable
      | by apply Hweak, Forall_printable_check
      | apply Forall_app_2
      | apply Forall_cons_2; [by right|] ]. }
  rewrite json_text_array. destruct ds as [|d ds].
  { by apply Hweak, Forall_printable_check. }
  unfold array_text. cbn [map]. unfold join.
  repeat first
    [ apply Hobj
    | by apply Hweak, Forall_printable_check
    | apply Forall_app_2
    | apply Forall_cons_2; [by right|] ].
  induction ds as [|d' ds IH]; cbn [map concat]; [constructor|].
  repeat first
    [ apply Hobj
    | apply IH
    | by apply Hweak, Forall_printable_check
    | apply Forall_app_2
    | apply Forall_cons_2; [by right|] ].
Qed.

Lemma unhex_hex_digit n : n < 16 -> unhex (hex_digit n) = n.
Proof.
  intros H. unfold unhex, hex_digit. destruct (n <? 10) eqn:E.
  - apply N.ltb_lt in E. replace (48 + n <? 58) with true; [lia|].
    symmetry. apply N.ltb_lt. lia.
  - apply N.ltb_ge in E. replace (87 + n <? 58) with false; [lia|].
    symmetry. apply N.ltb_ge. lia.
Qed.

Lemma unescape_char_u h1 h2 rest :
  unescape_char (BACKSLASH :: 117 :: 48 :: 48 :: h1 :: h2 :: rest)
  = Some (16 * unhex h1 + unhex h2, rest).
Proof. reflexivity. Qed.

(** The reader undoes [escape_char]. *)
Lemma unescape_escape_char c rest :
  unescape_char (escape_char c ++ rest) = Some (c, rest).
Proof.
  unfold escape_char.
  do 7 (match goal with
        | |- context [if ?b then _ else _] =>
            let E := fresh "E" in
            destruct b eqn:E; [apply N.eqb_eq in E; by subst c|]
        end).
  destruct (c <? 32) eqn:E32.
  - apply N.ltb_lt in E32.
    change (lit "\u00" ++ ?l) with (BACKSLASH :: 117 :: 48 :: 48 :: l).
    cbn [app]. rewrite unescape_char_u.
    rewrite !unhex_hex_digit
      by (try apply N.mod_lt; try apply N.Div0.div_lt_upper_bound; lia).
    do 2 f_equal. rewrite (N.div_mod c 16) at 3 by lia. lia.
  - cbn [app unescape_char]. by rewrite E, E0.
Qed.

Lemma encode_basestring_body_cancel s s' t t' :
  concat (map escape_char s) ++ QUOTE :: t
  = concat (map escape_char s') ++ QUOTE :: t' ->
  s = s' /\ t = t'.
Proof.
  revert s'. induction s as [|c s IH]; intros [|c' s'] H; cbn [map concat] in H.
  - by simplify_eq/=.
  - apply (f_equal unescape_char) in H.
    rewrite <- app_assoc, unescape_escape_char in H. done.
  - apply (f_equal unescape_char) in H.
    rewrite <- app_assoc, unescape_escape_char in H. done.
  - apply (f_equal unescape_char) in H.
    rewrite <- !app_assoc, !unescape_escape_char in H.
    injection H as -> H. by destruct (IH _ H) as [-> ->].
Qed.

(** The encoding of a string can be read back from the front of any text
    that begins with it. *)
Lemma encode_basestring_cancel s s' t t' :
  encode_basestring s ++ t = encode_basestring s' ++ t' -> s = s' /\ t = t'.
Proof.
  unfold encode_basestring. rewrite <- !app_assoc. cbn [app].
  intros [= H]. by apply encode_basestring_body_cancel.
Qed.

Lemma object_text_pieces d t :
  object_text d ++ t
  = (lit "{" ++ NL :: lit "    " ++ quoted (lit "start_time") ++ lit ": ")
    ++ encode_basestring (start_time d)
    ++ (lit "," ++ NL :: lit "    " ++ quoted (lit "end_time") ++ lit ": ")
    ++ encode_basestring (end_time d)
    ++ (lit "," ++ NL :: lit "    " ++ quoted (lit "dialog") ++ lit ": ")
    ++ encode_basestring (dialog d)
    ++ (NL :: lit "  }") ++ t.
Proof.
  unfold object_text.
  generalize (encode_basestring (start_time d)) (encode_basestring (end_time d))
    (encode_basestring (dialog d)).
  intros a b c.
  repeat (rewrite <- app_assoc || rewrite <- app_comm_cons).
  vm_compute. reflexivity.
Qed.

Lemma object_text_cancel d d' t t' :
  object_text d ++ t = object_text d' ++ t' -> d = d' /\ t = t'.
Proof.
  rewrite !object_text_pieces.
  intros H. apply app_inv_head in H.
  apply encode_basestring_cancel in H as [E1 H]. apply app_inv_head in H.
  apply encode_basestring_cancel in H as [E2 H]. apply app_inv_head in H.
  apply encode_basestring_cancel in H as [E3 H]. apply app_inv_head in H.
  split; [|done]. destruct d, d'; simpl in *. congruence.
Qed.

Lemma array_tail_cancel ds ds' :
  concat (map (fun y => (lit "," ++ NL :: lit "  ") ++ y) (map object_text ds))
    ++ NL :: lit "]"
  = concat (map (fun y => (lit "," ++ NL :: lit "  ") ++ y) (map object_text ds'))
    ++ NL :: lit "]" ->
  ds = ds'.
Proof.
  revert ds'. induction ds as [|d ds IH]; intros [|d' ds'] H;
    cbn [map concat] in H.
  - done.
  - rewrite <- !app_assoc in H. by vm_compute in H.
  - rewrite <- !app_assoc in H. by vm_compute in H.
  - rewrite <- !app_assoc in H. do 2 apply app_inv_head in H.
    apply object_text_cancel in H as [-> H]. by rewrite (IH _ H).
Qed.

(** X7: the document determines the records: two lists of records that
    are written as the same text are the same list, so nothing of a
    record is lost or blurred by the escapes and the layout. *)
Theorem X7_document_determines_records ds ds' :
  json_text ds = json_text ds' -> ds = ds'.
Proof.
  rewrite !json_text_array.
  destruct ds as [|d ds], ds' as [|d' ds']; cbn [map];
    rewrite ?array_text_cons; intros H.
  - done.
  - by vm_compute in H.
  - by vm_compute in H.
  - apply app_inv_head in H.
    apply object_text_cancel in H as [-> H].
    by rewrite (array_tail_cancel _ _ H).
Qed.

Lemma X7_document_determines_records_witness :
  let ds := [Dialogue (lit "0:00:01.00") (lit "0:00:02.00") [QUOTE; BACKSLASH; 1; 233]] in
  json_text ds = json_text ds /\ ds = ds.
Proof.
  intros ds. exact (conj eq_refl (X7_document_determines_records ds ds eq_refl)).
Defined.

(** ** The run of the program *)




(** X10: the [try] statement catches the class [Exception] only: an
    exception of another class raised by the read or by the write, such
    as an interrupt from the keyboard, ends the run, and nothing more is
    printed. *)
Theorem X10_other_exceptions_propagate {fs} (os : file_system fs) input output
    (st : fs * list (list char)) :
  path_exists os st.1 (Path input) = true ->
  lower (path_suffix (Path input)) = lit ".ass" ->
  (forall e,
     read_text os st.1 (Path input) = inl e ->
     is_Exception e = false ->
     main os input output st = (inl e, st))
  /\ (forall content e m',
        read_text os st.1 (Path input) = inr content ->
        write_text os st.1 (output_path (Path input) output)
          (json_text (parse_ass_text content)) = (Some e, m') ->
        is_Exception e = false ->
        main os input output st = (inl e, (m', st.2))).
Proof.
  intros H1 H2. split.
  - intros e E He. rewrite main_try, E, He by done. by destruct st.
  - intros content e m' E1 E2 He. rewrite main_try, E1 by done.
    simpl. by rewrite E2, He.
Qed.

Lemma X10_other_exceptions_propagate_witness :
  path_exists interrupted_fs tt (Path (lit "subs.ass")) = true
  /\ lower (path_suffix (Path (lit "subs.ass"))) = lit ".ass"
  /\ main interrupted_fs (lit "subs.ass") None (tt, [])
     = (inl (Exn KeyboardInterrupt []), (tt, [])).
Proof.
  pose proof (X10_other_exceptions_propagate interrupted_fs (lit "subs.ass") None
                (tt, []) eq_refl eq_refl) as [H _].
  exact (conj eq_refl (conj eq_refl (H _ eq_refl eq_refl))).
Defined.

(** ** The default output path *)

Lemma reverse_take_while_suffix q (x : list char) :
  x = reverse (drop_while q (reverse x)) ++ reverse (take_while q (reverse x)).
Proof. by rewrite <- reverse_app, take_while_drop_while, reverse_involutive. Qed.

(** The suffix of a path is its end. *)
Lemma path_suffix_is_suffix p : exists stem, p = stem ++ path_suffix p.
Proof.
  unfold path_suffix.
  set (name := path_name p).
  set (ext := reverse (take_while (fun c => negb (is_dot c)) (reverse name))).
  destruct ((0 <? length ext)%nat && (S (length ext) <? length name)%nat) eqn:C;
    [|exists p; by rewrite app_nil_r].
  apply andb_true_iff in C as [_ C]. apply Nat.ltb_lt in C.
  pose proof (reverse_take_while_suffix (fun c => negb (is_dot c)) name) as En.
  fold ext in En.
  destruct (drop_while (fun c => negb (is_dot c)) (reverse name)) as [|c t] eqn:D.
  { pose proof (f_equal length En) as L. rewrite length_app in L.
    simpl in L. lia. }
  apply drop_while_head in D. apply negb_false_iff, N.eqb_eq in D. subst c.
  rewrite reverse_cons, <- app_assoc in En.
  pose proof (reverse_take_while_suffix (fun c => negb (is_slash c)) p) as Ep.
  fold (path_name p) in Ep. fold name in Ep.
  exists (reverse (drop_while (fun c => negb (is_slash c)) (reverse p)) ++ reverse t).
  change ([DOT] ++ ext) with (DOT :: ext) in En.
  rewrite <- app_assoc. by rewrite <- En.
Qed.

Lemma with_suffix_stem p stem suffix :
  p = stem ++ path_suffix p -> with_suffix p suffix = stem ++ suffix.
Proof.
  unfold with_suffix. remember (path_suffix p) as sfx eqn:E. clear E.
  intros ->. by rewrite take_app_minus.
Qed.

(** X9: without an output option, for an input path whose suffix lowers
    to ".ass", the output path is the input path with that suffix replaced
    by ".json"; it is never the input path itself. *)
Theorem X9_default_output_path p :
  lower (path_suffix p) = lit ".ass" ->
  exists stem,
    p = stem ++ path_suffix p
    /\ output_path p None = stem ++ lit ".json"
    /\ output_path p None <> p.
Proof.
  intros H. destruct (path_suffix_is_suffix p) as [stem E].
  exists stem. split; [done|].
  assert (output_path p None = stem ++ lit ".json") as Eo
    by by apply with_suffix_stem.
  split; [done|]. rewrite Eo. intros Heq. rewrite E in Heq.
  apply app_inv_head in Heq. apply (f_equal lower) in Heq.
  rewrite H in Heq. by vm_compute in Heq.
Qed.

Lemma X9_default_output_path_witness :
  let p := lit "/media/show/Episode.01.ASS" in
  lower (path_suffix p) = lit ".ass"
  /\ exists stem,
       p = stem ++ path_suffix p
       /\ output_path p None = stem ++ lit ".json"
       /\ output_path p None <> p.
Proof.
  intros p. exact (conj eq_refl (X9_default_output_path p eq_refl)).
Defined.

Example default_output_path_example :
  output_path (lit "/media/show/Episode.01.ASS") None
  = lit "/media/show/Episode.01.json".
Proof. vm_compute. reflexivity. Qed.

(** ** An input without dialogue lines *)



